(** * apns2 dispatch governor: a shallow embedding of [apns2/dispatch.go]

    The development follows the source file top to bottom:
    machine integers and durations, [ProcCfg] and
    [minSustainPollPeriods], [waitCounter.acc], the governor with its
    event loop ([run], [updateCountersAndEvalScaling], [tryScaleUp],
    [launchStreamer], [allowedScaleDelta]), the launcher, and the retry
    forwarder with its buffered forwarders.

    Conventions.  Go's fixed-width integers are values of [Z] with the
    wrap-around of every operation written out ([to_uint32],
    [to_int64], [to_uint64]).  Go's [int] and [uint] are taken to be 64
    bits wide (the amd64/arm64 ports).  Pointers and channels are
    modelled by their identity (a natural number).  Everything the
    governor does to the outside world (goroutines started, channels
    closed, log lines) is appended to an effect log; everything the
    outside world does to the governor (a [select] branch becoming
    ready, the value returned by [Fold] or by [time.Now]) is an input
    of the step functions. *)

From Stdlib Require Import ZArith Lia Bool List.
From stdpp Require Import gmap strings pretty list fin_maps.

Local Open Scope Z_scope.

(** ** Machine integers *)

Module Mach.

Definition to_uint32 (z : Z) : Z := z mod 2 ^ 32.
Definition to_uint64 (z : Z) : Z := z mod 2 ^ 64.
Definition to_int64 (z : Z) : Z := (z + 2 ^ 63) mod 2 ^ 64 - 2 ^ 63.

(** [^uint32(0)]: the bitwise complement of 0, in 32 bits. *)
Definition max_uint32 : Z := to_uint32 (Z.lnot 0).

Definition is_uint32 (z : Z) : Prop := 0 <= z < 2 ^ 32.
Definition is_int64 (z : Z) : Prop := - 2 ^ 63 <= z < 2 ^ 63.

(** Go's [int(x)] for [x : uint32] and [uint32(x)] for [x : int],
    with [int] 64 bits wide. *)
Definition int_of_uint32 (z : Z) : Z := to_int64 z.
Definition uint32_of_int (z : Z) : Z := to_uint32 z.

End Mach.

Import Mach.

(** ** Time

    [time.Duration] is an [int64] count of nanoseconds.  [time.Time]
    belongs to Go's standard library; an instant is modelled as the
    number of nanoseconds since the zero [Time] (January 1, year 1,
    00:00 UTC), [Add] as addition and [After] as the strict order.
    The zero value of a [time.Time] field is [zeroTime]. *)

Definition Duration := Z.
Definition Time := Z.

Definition Nanosecond : Duration := 1.
Definition Microsecond : Duration := 1000 * Nanosecond.
Definition Millisecond : Duration := 1000 * Microsecond.
Definition Second : Duration := 1000 * Millisecond.

Definition zeroTime : Time := 0.
Definition Time_Add (t : Time) (d : Duration) : Time := t + d.
Definition Time_After (t u : Time) : bool := u <? t.

(** The instant of the Unix epoch (1970-01-01 00:00 UTC): 62135596800
    seconds after the zero [Time].  [time.Now] reads the wall clock,
    which on a running system is not set before the epoch. *)
Definition unixEpoch : Time := 62135596800 * Second.

(** ** Scale

    [Scale] is an interface of the package ([Apply] and
    [ApplyInverse] on [uint32]); its declaration and the predefined
    values live in another file of the repository. *)

Record Scale := {
  Apply : Z -> Z;
  ApplyInverse : Z -> Z
}.

(** Modelled from the spec: the predefined scale [Constant], whose
    declaration is not in [dispatch.go] ("Apply(n) = ApplyInverse(n) = n"). *)
Definition Constant : Scale :=
  {| Apply := fun n => n; ApplyInverse := fun n => n |}.

(** Modelled from the spec: the predefined scale [Incremental], whose
    declaration is not in [dispatch.go] ("Apply(n) = n + 1;
    ApplyInverse(n) = n - 1 (floor 0)"). *)
Definition Incremental : Scale :=
  {| Apply := fun n => n + 1; ApplyInverse := fun n => Z.max 0 (n - 1) |}.

(** Modelled from the spec: the predefined scale [Exponential], whose
    declaration is not in [dispatch.go] ("Apply(n) = max(1, 2n);
    ApplyInverse(n) = n / 2 (integer division)"). *)
Definition Exponential : Scale :=
  {| Apply := fun n => Z.max 1 (2 * n); ApplyInverse := fun n => n / 2 |}.

(** ** ProcCfg

    The fields [RetryEval] (a function value), [MaxRate] and
    [MaxBandwidth] (floating point) are never read by [dispatch.go]
    and are left out of the record. *)

Record ProcCfg := {
  MaxRetries : Z;                      (* uint32 *)
  MinConns : Z;                        (* uint32 *)
  MaxConns : Z;                        (* uint32 *)
  scale : Scale;                       (* field Scale *)
  MinSustain : Duration;
  PollInterval : Duration;
  SettlePeriod : Duration;
  AllowHTTP2Incursion : bool;
  UsePreciseHTTP2Metrics : bool;
  HTTP2MetricsRefreshPeriod : Duration
}.

(** Every field holds a value of its Go type. *)
Record ProcCfg_wf (c : ProcCfg) : Prop := {
  wf_MaxRetries : is_uint32 (MaxRetries c);
  wf_MinConns : is_uint32 (MinConns c);
  wf_MaxConns : is_uint32 (MaxConns c);
  wf_MinSustain : is_int64 (MinSustain c);
  wf_PollInterval : is_int64 (PollInterval c);
  wf_SettlePeriod : is_int64 (SettlePeriod c);
  wf_HTTP2MetricsRefreshPeriod : is_int64 (HTTP2MetricsRefreshPeriod c)
}.

Definition MinBlockingProcConfig : ProcCfg :=
  {| MaxRetries := 0;
     MinConns := 1;
     MaxConns := 1;
     scale := Constant;
     MinSustain := 0;
     PollInterval := 0;
     SettlePeriod := 0;
     AllowHTTP2Incursion := true;
     UsePreciseHTTP2Metrics := false;
     HTTP2MetricsRefreshPeriod := 500 * Millisecond |}.

(** [func (c *ProcCfg) minSustainPollPeriods() uint32].  Go's [/] and
    [%] on signed integers truncate toward zero ([Z.quot], [Z.rem]). *)
Definition minSustainPollPeriods (c : ProcCfg) : Z :=
  if (MinSustain c <=? 0) || (PollInterval c <=? 0) then max_uint32
  else
    let res := to_int64 (Z.quot (MinSustain c) (PollInterval c)) in
    let res :=
      if 0 <? to_int64 (Z.rem (MinSustain c) (PollInterval c))
      then to_int64 (res + 1) else res in
    to_uint32 res.

(** The ceiling of [a / b] as a rational, for [0 < b]. *)
Definition ceil_div (a b : Z) : Z := - ((- a) / b).

(** ** waitCounter *)

Record waitCounter := {
  waits : Z;                           (* uint32 *)
  noWaits : Z                          (* uint32 *)
}.

Definition waitCounter_wf (c : waitCounter) : Prop :=
  is_uint32 (waits c) /\ is_uint32 (noWaits c).

(** [func (c *waitCounter) acc(val uint32)] *)
Definition acc (c : waitCounter) (val : Z) : waitCounter :=
  if 0 <? val
  then {| waits := to_uint32 (waits c + 1); noWaits := 0 |}
  else {| waits := 0; noWaits := to_uint32 (noWaits c + 1) |}.

(** "Exactly one of the two fields equals zero." *)
Definition one_zero (c : waitCounter) : Prop :=
  (waits c = 0 /\ noWaits c <> 0) \/ (waits c <> 0 /\ noWaits c = 0).

(** ** Governor state *)

(** Heap objects and channels are known by their identity. *)
Definition ptr := nat.
Definition chan := nat.
(** A Go [error] value, known by its message. *)
Definition error := string.
(** A [*Request], known by its identity. *)
Definition Request := nat.

(** The fields of [streamer] that [dispatch.go] reads or writes (the
    struct itself is declared in another file).  [s_addr] is the
    address of the object: two streamers are the same map key exactly
    when their addresses agree. *)
Record streamer := {
  s_addr : ptr;
  s_id : string;
  warmStart : bool;
  s_ctl : chan;
  inClosed : bool;
  didQuit : bool
}.

Record launcher := {
  l_addr : ptr;
  l_id : string;
  l_ctl : chan;
  l_err : option error;
  l_worker : option streamer
}.

(** [type governor struct].  The channel endpoints [ctl], [done],
    [wExits], [lExits] and the client [c] appear as events and
    effects, not as fields. *)
Record governor := {
  id : string;
  cfg : ProcCfg;
  minSust : Z;                         (* uint32 *)
  nonBlocking : bool;
  inCtr : waitCounter;
  outCtr : waitCounter;
  streamers : gmap ptr chan;
  launchers : gmap ptr chan;
  nextWId : Z;                         (* uint *)
  lastScale : Time;
  isClosing : bool
}.

Definition set_inCtr (c : waitCounter) (g : governor) : governor :=
  {| id := id g; cfg := cfg g; minSust := minSust g;
     nonBlocking := nonBlocking g; inCtr := c; outCtr := outCtr g;
     streamers := streamers g; launchers := launchers g;
     nextWId := nextWId g; lastScale := lastScale g;
     isClosing := isClosing g |}.

Definition set_outCtr (c : waitCounter) (g : governor) : governor :=
  {| id := id g; cfg := cfg g; minSust := minSust g;
     nonBlocking := nonBlocking g; inCtr := inCtr g; outCtr := c;
     streamers := streamers g; launchers := launchers g;
     nextWId := nextWId g; lastScale := lastScale g;
     isClosing := isClosing g |}.

Definition set_streamers (m : gmap ptr chan) (g : governor) : governor :=
  {| id := id g; cfg := cfg g; minSust := minSust g;
     nonBlocking := nonBlocking g; inCtr := inCtr g; outCtr := outCtr g;
     streamers := m; launchers := launchers g;
     nextWId := nextWId g; lastScale := lastScale g;
     isClosing := isClosing g |}.

Definition set_launchers (m : gmap ptr chan) (g : governor) : governor :=
  {| id := id g; cfg := cfg g; minSust := minSust g;
     nonBlocking := nonBlocking g; inCtr := inCtr g; outCtr := outCtr g;
     streamers := streamers g; launchers := m;
     nextWId := nextWId g; lastScale := lastScale g;
     isClosing := isClosing g |}.

Definition set_nextWId (n : Z) (g : governor) : governor :=
  {| id := id g; cfg := cfg g; minSust := minSust g;
     nonBlocking := nonBlocking g; inCtr := inCtr g; outCtr := outCtr g;
     streamers := streamers g; launchers := launchers g;
     nextWId := n; lastScale := lastScale g;
     isClosing := isClosing g |}.

Definition set_isClosing (b : bool) (g : governor) : governor :=
  {| id := id g; cfg := cfg g; minSust := minSust g;
     nonBlocking := nonBlocking g; inCtr := inCtr g; outCtr := outCtr g;
     streamers := streamers g; launchers := launchers g;
     nextWId := nextWId g; lastScale := lastScale g;
     isClosing := b |}.

(** Go's [len] of a map, an [int]. *)
Definition len (m : gmap ptr chan) : Z := Z.of_nat (size m).

(** Modelled from the spec: the constructor of the governor, which is
    not in [dispatch.go] ("Governor construction: (id, Client, ProcCfg,
    ctl, done)", "Derived: minSust").  Configuration and [minSust] are
    filled in; every other field has its zero value. *)
Definition newGovernor (name : string) (c : ProcCfg) : governor :=
  {| id := name; cfg := c; minSust := minSustainPollPeriods c;
     nonBlocking := false;
     inCtr := {| waits := 0; noWaits := 0 |};
     outCtr := {| waits := 0; noWaits := 0 |};
     streamers := ∅; launchers := ∅;
     nextWId := 0; lastScale := zeroTime; isClosing := false |}.

(** ** Effects of the governor task *)

Inductive effect :=
| logInfo (who msg : string)
| logWarn (who msg : string) (e : error)
| logTrace (level : Z) (who msg : string) (v : Z)
| go_runRetryForwarder
| go_launch (l : launcher)
| NewTicker (d : Duration)
| ticker_Stop
| close_chan (c : chan)
| close_done.

(** The governor together with what surrounds it: the effects so far
    (oldest first) and the supply of channel identities for [make]. *)
Record world := {
  gov : governor;
  effects : list effect;
  next_chan : chan
}.

Definition set_gov (g : governor) (w : world) : world :=
  {| gov := g; effects := effects w; next_chan := next_chan w |}.

Definition emit (e : effect) (w : world) : world :=
  {| gov := gov w; effects := effects w ++ [e]; next_chan := next_chan w |}.

(** ** Scaling *)

(** [func (g *governor) updateCountersAndEvalScaling() int].  [ics]
    is what [g.c.waitCtr.Fold()] returns and [oc w] what
    [w.waitCtr.Fold()] returns for the streamer at address [w]; the
    sum is order independent. *)
Definition updateCountersAndEvalScaling
    (g : governor) (ics : Z) (oc : ptr -> Z) : Z * governor :=
  let ocs :=
    map_fold (fun w (_ : chan) s => to_uint32 (s + oc w)) 0 (streamers g) in
  let g := set_inCtr (acc (inCtr g) ics) g in
  let g := set_outCtr (acc (outCtr g) ocs) g in
  if (minSust g <=? waits (inCtr g)) && (minSust g <=? noWaits (outCtr g))
  then (1, g)
  else if minSust g <=? noWaits (inCtr g) then (-1, g)
  else (0, g).

Definition forScaleUp := true.
Definition forWindDown := false.

(** [func (g *governor) allowedScaleDelta(forScaleUp bool) int];
    [now] is the value of [time.Now()]. *)
Definition allowedScaleDelta (g : governor) (now : Time) (up : bool) : Z :=
  if isClosing g then 0
  else if Time_After (Time_Add (lastScale g) (SettlePeriod (cfg g))) now then 0
  else if negb (nonBlocking g) && (0 <? len (launchers g)) then 0
  else
    let prov :=
      uint32_of_int (to_int64 (len (streamers g) + len (launchers g))) in
    let target :=
      if up then
        if MaxConns (cfg g) <=? prov then None
        else Some (Apply (scale (cfg g)) prov)
      else
        if prov <=? MinConns (cfg g) then None
        else Some (ApplyInverse (scale (cfg g)) prov) in
    match target with
    | None => 0
    | Some req =>
        let req := if req <? MinConns (cfg g) then MinConns (cfg g) else req in
        let req := if MaxConns (cfg g) <? req then MaxConns (cfg g) else req in
        to_int64 (int_of_uint32 req - int_of_uint32 prov)
    end.

(** [func (g *governor) launchStreamer()].  The new launcher object
    gets an address that no launcher of the map has; its control
    channel is the next channel identity.  The name is what [Sprintf]
    prints for a [g.id] without formatting verbs. *)
Definition launchStreamer (w : world) : world :=
  let g := gov w in
  let wid := id g +:+ "-Streamer-" +:+ pretty (Z.to_N (nextWId g)) in
  let a : ptr := fresh (dom (launchers g)) in
  let l := {| l_addr := a; l_id := wid; l_ctl := next_chan w;
              l_err := None; l_worker := None |} in
  let g := set_nextWId (to_uint64 (nextWId g + 1)) g in
  let g := set_launchers (<[a := l_ctl l]> (launchers g)) g in
  {| gov := g; effects := effects w ++ [go_launch l];
     next_chan := S (next_chan w) |}.

(** [func (g *governor) tryScaleUp()] *)
Definition tryScaleUp (w : world) (now : Time) : world :=
  let delta := allowedScaleDelta (gov w) now forScaleUp in
  let w := emit (logTrace 0 (id (gov w)) "tryScaleUp delta = %d" delta) w in
  if delta <=? 0 then w
  else Nat.iter (Z.to_nat delta) launchStreamer w.

(** [func (g *governor) tryWindDown()]: the body is empty. *)
Definition tryWindDown (w : world) : world := w.

(** ** The governor's event loop *)

(** What a [select] of the loop can receive.  A tick comes with the
    values the branch goes on to read from its surroundings: the clock
    and the folded wait counters. *)
Inductive event :=
| LExit (l : launcher)                       (* l := <-g.lExits *)
| WExit (s : streamer)                       (* w := <-g.wExits *)
| Tick (now : Time) (ics : Z) (oc : ptr -> Z) (* <-tkrChan *)
| Stop.                                      (* <-g.ctl *)

(** [tkrChan] stays [nil] unless [PollInterval > 0]; a receive from a
    [nil] channel is never ready. *)
Definition ready (g : governor) (ev : event) : bool :=
  match ev with
  | Tick _ _ _ => 0 <? PollInterval (cfg g)
  | _ => true
  end.

(** The setup part of [func (g *governor) run()], up to the loop. *)
Definition run_setup (g : governor) (now : Time) : world :=
  let w := {| gov := g; effects := [logInfo (id g) "Starting."];
              next_chan := 0%nat |} in
  let w := set_gov (set_streamers ∅ (gov w)) w in
  let w := set_gov (set_launchers ∅ (gov w)) w in
  let w := emit go_runRetryForwarder w in
  let w := tryScaleUp w now in
  let w :=
    if 0 <? PollInterval (cfg (gov w))
    then emit (NewTicker (PollInterval (cfg (gov w)))) w else w in
  emit (logInfo (id (gov w)) "Running.") w.

(** One iteration of the loop: the [select] and the test after it.
    The result tells whether [done] is set. *)
Definition loop_body (w : world) (ev : event) : world * bool :=
  let '(w, done) :=
    match ev with
    | LExit l =>
        let g := set_launchers (delete (l_addr l) (launchers (gov w))) (gov w) in
        match l_worker l with
        | Some s =>
            (set_gov (set_streamers (<[s_addr s := s_ctl s]> (streamers g)) g) w,
             false)
        | None =>
            match l_err l with
            | Some e =>
                (emit (logWarn (id g) "Error starting streamer: %v" e)
                      (set_gov g w), false)
            | None => (set_gov g w, false)
            end
        end
    | WExit s =>
        let w :=
          if inClosed s && negb (isClosing (gov w))
          then set_gov (set_isClosing true (gov w))
                       (emit (logInfo (id (gov w)) "Stopping.") w)
          else w in
        let w :=
          set_gov (set_streamers (delete (s_addr s) (streamers (gov w))) (gov w)) w in
        if didQuit s then (launchStreamer w, false) else (w, false)
    | Tick now ics oc =>
        if isClosing (gov w) then (w, false)
        else
          let '(s, g) := updateCountersAndEvalScaling (gov w) ics oc in
          let w := set_gov g w in
          if 0 <? s then (tryScaleUp w now, false)
          else if s <? 0 then (tryWindDown w, false)
          else (w, false)
    | Stop =>
        (emit (logInfo (id (gov w)) "Terminating.") w, true)
    end in
  if negb done && isClosing (gov w)
  then (w, (len (streamers (gov w)) =? 0) && (len (launchers (gov w)) =? 0))
  else (w, done).

(** The loop over the events that arrive.  [true] is returned when
    the loop has ended; [false] when the governor is still waiting in
    its [select] after the last event. *)
Fixpoint loop (w : world) (evs : list event) : world * bool :=
  match evs with
  | [] => (w, false)
  | ev :: evs =>
      if ready (gov w) ev then
        let '(w', done) := loop_body w ev in
        if done then (w', true) else loop w' evs
      else loop w evs
  end.

(** The part of [run] after the loop.  The maps are ranged over in
    the order of [map_to_list]; Go leaves the order open. *)
Definition run_shutdown (w : world) : world :=
  let w := emit (logInfo (id (gov w)) "Terminating launchers and streamers.") w in
  let w := foldl (fun w kc => emit (close_chan (snd kc)) w) w
                 (map_to_list (launchers (gov w))) in
  let w := foldl (fun w kc => emit (close_chan (snd kc)) w) w
                 (map_to_list (streamers (gov w))) in
  let w := emit (logInfo (id (gov w)) "Stopped.") w in
  emit close_done w.

(** [defer tkr.Stop()], run when [run] returns. *)
Definition run_deferred (w : world) : world :=
  if 0 <? PollInterval (cfg (gov w)) then emit ticker_Stop w else w.

(** [func (g *governor) run()]: [now] is the clock at the initial
    [tryScaleUp], [evs] the events received afterwards. *)
Definition run (g : governor) (now : Time) (evs : list event) : world * bool :=
  let '(w, done) := loop (run_setup g now) evs in
  if done then (run_deferred (run_shutdown w), true) else (w, false).

(** ** Launcher *)

(** The outcome of the [select] that ends [launch]. *)
Inductive launch_select :=
| SentDone                                    (* l.done <- l *)
| CtlClosed.                                  (* <-l.ctl *)

(** [func (l *launcher) launch()].  [a] and [c] are the address of the
    new streamer and the identity of its control channel,
    [start_result] what [w.start(nil)] returns ([None] for [nil]).
    The result is the launcher as the function leaves it and the
    value, if any, that it has sent on [l.done]. *)
Definition launch (l : launcher) (a : ptr) (c : chan)
    (start_result : option error) (sel : launch_select)
    : launcher * option launcher :=
  let w := {| s_addr := a; s_id := l_id l; warmStart := true; s_ctl := c;
              inClosed := false; didQuit := false |} in
  let l := {| l_addr := l_addr l; l_id := l_id l; l_ctl := l_ctl l;
              l_err := start_result; l_worker := l_worker l |} in
  let l :=
    match l_err l with
    | None => {| l_addr := l_addr l; l_id := l_id l; l_ctl := l_ctl l;
                 l_err := l_err l; l_worker := Some w |}
    | Some _ => l
    end in
  match sel with
  | SentDone => (l, Some l)
  | CtlClosed => (l, None)
  end.

(** ** Retry forwarder *)

Inductive rf_effect :=
| rf_logInfo (who msg : string)
| make_retry (c : chan) (capacity : Z)        (* g.retry = make(chan *Request, 100) *)
| make_buf (c : chan) (capacity : Z)          (* buf = make(chan *Request, bufSize) *)
| close_buf (c : chan)                        (* close(buf) *)
| go_bufferedForwarder (c : chan)             (* go bufferedForwarder(buf, g.c, g.ctl) *)
| send_buf (c : chan) (req : Request).        (* buf <- req *)

(** What the [select] of the forwarder's loop can receive. *)
Inductive rf_event :=
| RecvRetry (req : Request)                   (* req := <-g.retry *)
| RfStop.                                     (* <-g.ctl *)

(** The local variables of [runRetryForwarder] and its surroundings. *)
Record rf_state := {
  buf : option chan;                          (* nil until the first make *)
  cnt : Z;                                    (* int *)
  rf_effects : list rf_effect;
  rf_next_chan : chan
}.

Definition bufSize : Z := 500.

(** The body of [if buf == nil || cnt >= bufSize]: the sub-buffer in
    use afterwards, with the new state. *)
Definition rf_rotate (st : rf_state) : chan * rf_state :=
  let effs :=
    match buf st with
    | Some b => rf_effects st ++ [close_buf b]
    | None => rf_effects st
    end in
  let b := rf_next_chan st in
  (b, {| buf := Some b; cnt := 0;
         rf_effects := effs ++ [make_buf b bufSize; go_bufferedForwarder b];
         rf_next_chan := S b |}).

(** One iteration of the forwarder's loop; the result tells whether
    [done] is set. *)
Definition rf_loop_body (st : rf_state) (ev : rf_event) : rf_state * bool :=
  match ev with
  | RecvRetry req =>
      let '(b, st) :=
        match buf st with
        | None => rf_rotate st
        | Some b => if bufSize <=? cnt st then rf_rotate st else (b, st)
        end in
      ({| buf := buf st; cnt := cnt st;
          rf_effects := rf_effects st ++ [send_buf b req];
          rf_next_chan := rf_next_chan st |}, false)
  | RfStop => (st, true)
  end.

Fixpoint rf_loop (st : rf_state) (evs : list rf_event) : rf_state * bool :=
  match evs with
  | [] => (st, false)
  | ev :: evs =>
      let '(st', done) := rf_loop_body st ev in
      if done then (st', true) else rf_loop st' evs
  end.

(** [func (g *governor) runRetryForwarder()].  The result is the
    value of [g.retry] ([None] for [nil]), the effects, and whether
    the function has returned. *)
Definition runRetryForwarder (g : governor) (evs : list rf_event)
    : option chan * list rf_effect * bool :=
  if MaxRetries (cfg g) =? 0 then (None, [], true)
  else
    let retry : chan := 0%nat in
    let st := {| buf := None; cnt := 0;
                 rf_effects := [make_retry retry 100;
                                rf_logInfo (id g +:+ "-RetryForwarder") "Running."];
                 rf_next_chan := 1%nat |} in
    let '(st, done) := rf_loop st evs in
    if done
    then (Some retry,
          rf_effects st ++ [rf_logInfo (id g +:+ "-RetryForwarder") "Stopped."],
          true)
    else (Some retry, rf_effects st, false).

(** What the [select]s of a buffered forwarder can do. *)
Inductive bf_event :=
| BfRecv (req : Request) (sent : bool)
    (* req, ok := <-in with ok; then client.retry <- req ([sent]) or <-ctl *)
| BfClosed                                    (* req, ok := <-in with !ok *)
| BfStop.                                     (* <-ctl *)

(** [func bufferedForwarder(in, client, ctl)]: the requests it puts
    on [client.retry], in order. *)
Fixpoint bufferedForwarder (evs : list bf_event) : list Request :=
  match evs with
  | [] => []
  | BfRecv req true :: evs => req :: bufferedForwarder evs
  | BfRecv req false :: _ => []
  | BfClosed :: _ => []
  | BfStop :: _ => []
  end.

(** The forwarders started by a run of [runRetryForwarder]. *)
Definition spawned (effs : list rf_effect) : list chan :=
  omap (fun e => match e with go_bufferedForwarder c => Some c | _ => None end) effs.

Definition allocated (effs : list rf_effect) : list chan :=
  omap (fun e => match e with make_buf c _ => Some c | _ => None end) effs.

Definition closed (effs : list rf_effect) : list chan :=
  omap (fun e => match e with close_buf c => Some c | _ => None end) effs.

Definition sent_on (b : chan) (effs : list rf_effect) : list Request :=
  omap (fun e => match e with
                 | send_buf c r => if decide (c = b) then Some r else None
                 | _ => None end) effs.

(** Everything put on the client's retry channel by the retry path:
    the forwarder receives [evs]; the buffered forwarder reading
    sub-buffer [c] sees the events [sched c]. *)
Definition client_retry (g : governor) (evs : list rf_event)
    (sched : chan -> list bf_event) : list Request :=
  let '(_, effs, _) := runRetryForwarder g evs in
  flat_map (fun c => bufferedForwarder (sched c)) (spawned effs).

(** ** The specification's reading of the scaling gate

    These definitions follow the words of the specification, not the
    source; the theorems below compare them with the source. *)

(** "Let prov = |streamers| + |launchers|." *)
Definition prov (g : governor) : Z := len (streamers g) + len (launchers g).

(** "Clamp req into [lo, hi]." *)
Definition clamp (lo hi x : Z) : Z := Z.min hi (Z.max lo x).

(** The conditions under which the gate answers 0. *)
Definition gate_closed (g : governor) (now : Time) (up : bool) : bool :=
  isClosing g
  || (now <? lastScale g + SettlePeriod (cfg g))
  || (negb (nonBlocking g) && negb (len (launchers g) =? 0))
  || (if up then MaxConns (cfg g) <=? prov g else prov g <=? MinConns (cfg g)).

Definition allowedScaleDelta_spec (g : governor) (now : Time) (up : bool) : Z :=
  if gate_closed g now up then 0
  else
    let req := if up then Apply (scale (cfg g)) (prov g)
               else ApplyInverse (scale (cfg g)) (prov g) in
    clamp (MinConns (cfg g)) (MaxConns (cfg g)) req - prov g.

(** "inCtr.waits >= minSust and outCtr.noWaits >= minSust": producers
    held back while the workers are not saturated downstream. *)
Definition sustained_pressure (g : governor) : Prop :=
  waits (inCtr g) >= minSust g /\ noWaits (outCtr g) >= minSust g.

(** "inCtr.noWaits >= minSust": producers unblocked for the whole
    observation window. *)
Definition sustained_idle (g : governor) : Prop :=
  noWaits (inCtr g) >= minSust g.

(** ** Sample configurations and states used in the examples *)

Definition cfg_sustain (minSustain pollInterval : Duration) : ProcCfg :=
  {| MaxRetries := 0; MinConns := 1; MaxConns := 1; scale := Constant;
     MinSustain := minSustain; PollInterval := pollInterval;
     SettlePeriod := 0;
     AllowHTTP2Incursion := false; UsePreciseHTTP2Metrics := false;
     HTTP2MetricsRefreshPeriod := 0 |}.

(** Five seconds sampled every nanosecond: 5 000 000 000 periods. *)
Definition cfg_5s_1ns : ProcCfg := cfg_sustain (5 * Second) Nanosecond.

(** 110 ms sampled every 20 ms: five whole periods and a part of one. *)
Definition cfg_110ms_20ms : ProcCfg :=
  cfg_sustain (110 * Millisecond) (20 * Millisecond).

(** A counter that has seen [2^32 - 1] periods with waits in a row. *)
Definition ctr_full : waitCounter := {| waits := 2 ^ 32 - 1; noWaits := 0 |}.

Definition ctr_3_0 : waitCounter := {| waits := 3; noWaits := 0 |}.

(** A pool of 1 to 8 connections that doubles, sampled every 20 ms
    with a sustain window of one period and a settle period of 50 ms;
    up to 3 retries. *)
Definition cfg_scaling : ProcCfg :=
  {| MaxRetries := 3; MinConns := 1; MaxConns := 8; scale := Exponential;
     MinSustain := 20 * Millisecond; PollInterval := 20 * Millisecond;
     SettlePeriod := 50 * Millisecond;
     AllowHTTP2Incursion := false; UsePreciseHTTP2Metrics := false;
     HTTP2MetricsRefreshPeriod := 0 |}.

Definition gov_scaling : governor := newGovernor "gov" cfg_scaling.

(** [gov_scaling] with two streamers registered. *)
Definition gov_two_streamers : governor :=
  set_streamers (<[7%nat := 70%nat]> (<[8%nat := 80%nat]> ∅)) gov_scaling.

(** Some instant of the year 2017: the Unix time 1 500 000 000 s. *)
Definition t_2017 : Time := unixEpoch + 1500000000 * Second.

(** The launchers started so far, oldest first. *)
Definition launched (w : world) : list launcher :=
  omap (fun e => match e with go_launch l => Some l | _ => None end) (effects w).

(** The launcher [l] after a [launch] in which [start] succeeded and
    the result was sent to the governor. *)
Definition launch_ok (l : launcher) (a : ptr) (c : chan) : launcher :=
  fst (launch l a c None SentDone).

(** The launcher [l] after a [launch] in which [start] failed with [e]. *)
Definition launch_failed (l : launcher) (a : ptr) (c : chan) (e : error)
    : launcher :=
  fst (launch l a c (Some e) SentDone).

(** A streamer record with its [didQuit] flag replaced. *)
Definition with_didQuit (b : bool) (s : streamer) : streamer :=
  {| s_addr := s_addr s; s_id := s_id s; warmStart := warmStart s;
     s_ctl := s_ctl s; inClosed := inClosed s; didQuit := b |}.

(** The state of the loop just before the [didQuit] test of the
    [wExits] branch. *)
Definition after_streamer_removed (w : world) (s : streamer) : world :=
  let w :=
    if inClosed s && negb (isClosing (gov w))
    then set_gov (set_isClosing true (gov w))
                 (emit (logInfo (id (gov w)) "Stopping.") w)
    else w in
  set_gov (set_streamers (delete (s_addr s) (streamers (gov w))) (gov w)) w.

(** A governor that is draining: closing, with the streamer at
    address 7 as the last member of the pool. *)
Definition gov_draining : governor :=
  set_isClosing true (set_streamers (<[7%nat := 70%nat]> ∅) gov_scaling).

Definition world_draining : world :=
  {| gov := gov_draining; effects := []; next_chan := 5%nat |}.

(** The streamer at address 7 as it reports a connection failure. *)
Definition streamer_7_quit : streamer :=
  {| s_addr := 7%nat; s_id := "gov-Streamer-0"; warmStart := true;
     s_ctl := 70%nat; inClosed := false; didQuit := true |}.

(** A launcher as [launchStreamer] creates it. *)
Definition launcher_0 : launcher :=
  {| l_addr := 0%nat; l_id := "gov-Streamer-0"; l_ctl := 0%nat;
     l_err := None; l_worker := None |}.

(** The second launcher of [gov_scaling]; it reuses address 0, which
    the first launcher has left by then. *)
Definition launcher_1 : launcher :=
  {| l_addr := 0%nat; l_id := "gov-Streamer-1"; l_ctl := 1%nat;
     l_err := None; l_worker := None |}.

(** A run under sustained inbound pressure: the first launcher
    succeeds, the tick at 20 ms sees inbound waits and no outbound
    waits, the second launcher succeeds, and so does the tick at
    40 ms. *)
Definition t_tick1 : Time := t_2017 + 20 * Millisecond.
Definition t_tick2 : Time := t_2017 + 40 * Millisecond.

Definition events_pressure : list event :=
  [ LExit (launch_ok launcher_0 100%nat 1000%nat);
    Tick t_tick1 1 (fun _ => 0);
    LExit (launch_ok launcher_1 101%nat 1001%nat);
    Tick t_tick2 1 (fun _ => 0) ].

(** The world after the first [k] events of [events_pressure]. *)
Definition world_pressure (k : nat) : world :=
  fst (run gov_scaling t_2017 (take k events_pressure)).

(** 501 requests arriving on the forwarder's channel. *)
Definition requests_501 : list Request := seq 0 501.

(** ** Notions used to state properties of whole runs *)

(** The governor fields that no function of the file assigns. *)
Definition same_settings (g g' : governor) : Prop :=
  id g' = id g /\ cfg g' = cfg g /\ minSust g' = minSust g
  /\ nonBlocking g' = nonBlocking g.

(** The test made after each [select]: both maps are empty. *)
Definition drained (g : governor) : bool :=
  (len (streamers g) =? 0) && (len (launchers g) =? 0).

(** An exit event comes from a launcher or a streamer that the
    governor has in its maps: a launcher sends itself once, after
    [launchStreamer] registered it, and a streamer once, after its
    launcher handed it over. *)
Definition member_event (g : governor) (ev : event) : bool :=
  match ev with
  | LExit l => bool_decide (is_Some (launchers g !! l_addr l))
  | WExit s => bool_decide (is_Some (streamers g !! s_addr s))
  | Tick _ _ _ => true
  | Stop => true
  end.

(** Every event of the run is a [member_event] of the state that
    receives it. *)
Fixpoint members_only (w : world) (evs : list event) : bool :=
  match evs with
  | [] => true
  | ev :: evs =>
      if ready (gov w) ev then
        member_event (gov w) ev
        && (let '(w', done) := loop_body w ev in
            if done then true else members_only w' evs)
      else members_only w evs
  end.

Definition is_tick (ev : event) : bool :=
  match ev with Tick _ _ _ => true | _ => false end.

Definition is_quit (ev : event) : bool :=
  match ev with WExit s => didQuit s | _ => false end.

(** The governor after a series of polls; each sample is the pair of
    the inbound fold and the per-streamer outbound folds. *)
Definition feed (g : governor) (samples : list (Z * (ptr -> Z))) : governor :=
  foldl (fun g s => snd (updateCountersAndEvalScaling g (fst s) (snd s)))
        g samples.

(** A sample with inbound waits and no outbound wait at any streamer. *)
Definition pressure (s : Z * (ptr -> Z)) : Prop :=
  0 < fst s /\ forall a, snd s a = 0.

Definition zero_counter : waitCounter := {| waits := 0; noWaits := 0 |}.

(** A governor whose sustain window is five polls: 100 ms sampled
    every 20 ms. *)
Definition gov_sustain_5 : governor :=
  newGovernor "gov" (cfg_sustain (100 * Millisecond) (20 * Millisecond)).

(** The sum of the outbound folds over the registered streamers. *)
Definition sum_samples (oc : ptr -> Z) (m : gmap ptr chan) : Z :=
  foldr (fun kc s => s + oc (fst kc)) 0 (map_to_list m).



(** The requests received before the first stop. *)
Fixpoint before_stop (evs : list rf_event) : list Request :=
  match evs with
  | RecvRetry r :: evs => r :: before_stop evs
  | _ => []
  end.


(** A streamer that reports the inbound channel closed. *)
Definition streamer_8_closed : streamer :=
  {| s_addr := 8%nat; s_id := "gov-Streamer-8"; warmStart := true;
     s_ctl := 80%nat; inClosed := true; didQuit := false |}.

(** The effects on the ticker. *)
Definition is_ticker (e : effect) : bool :=
  match e with NewTicker _ | ticker_Stop => true | _ => false end.

(** The effects that close a channel. *)
Definition is_close (e : effect) : bool :=
  match e with close_chan _ | close_done => true | _ => false end.

(** * Facts about machine integers *)

Lemma max_uint32_val : max_uint32 = 2 ^ 32 - 1.
Proof. reflexivity. Qed.

Lemma to_uint32_range z : is_uint32 (to_uint32 z).
Proof. unfold is_uint32, to_uint32. apply Z.mod_pos_bound. lia. Qed.

Lemma to_uint32_id z : is_uint32 z -> to_uint32 z = z.
Proof. unfold is_uint32, to_uint32. intros H. apply Z.mod_small. exact H. Qed.

Lemma to_int64_id z : is_int64 z -> to_int64 z = z.
Proof.
  unfold is_int64, to_int64. intros H.
  rewrite Z.mod_small by lia. lia.
Qed.

Lemma int_of_uint32_id z : is_uint32 z -> int_of_uint32 z = z.
Proof.
  unfold is_uint32, int_of_uint32. intros H.
  apply to_int64_id. unfold is_int64. lia.
Qed.

Create HintDb mach.
#[local] Hint Resolve to_uint32_range : mach.

(** [ceil_div a b] is the least [q] with [a <= q * b]. *)
Lemma ceil_div_spec a b :
  0 < b -> (ceil_div a b - 1) * b < a <= ceil_div a b * b.
Proof.
  intros Hb. unfold ceil_div.
  pose proof (Z.div_mod (- a) b ltac:(lia)) as Hdm.
  pose proof (Z.mod_pos_bound (- a) b Hb) as Hm.
  nia.
Qed.

Lemma ceil_div_unique a b q :
  0 < b -> (q - 1) * b < a <= q * b -> ceil_div a b = q.
Proof.
  intros Hb Hq. pose proof (ceil_div_spec a b Hb) as Hc. nia.
Qed.

(** What the division and the remainder test of
    [minSustainPollPeriods] compute, before any conversion. *)
Lemma quot_round_up a b :
  0 < a -> 0 < b ->
  (if 0 <? Z.rem a b then Z.quot a b + 1 else Z.quot a b) = ceil_div a b.
Proof.
  intros Ha Hb. symmetry. apply ceil_div_unique; [exact Hb|].
  rewrite Z.quot_div_nonneg, Z.rem_mod_nonneg by lia.
  pose proof (Z.div_mod a b ltac:(lia)) as Hdm.
  pose proof (Z.mod_pos_bound a b Hb) as Hm.
  destruct (Z.ltb_spec 0 (a mod b)); nia.
Qed.

(** * ProcCfg.minSustainPollPeriods *)

Lemma minSustainPollPeriods_invalid c :
  MinSustain c <= 0 \/ PollInterval c <= 0 ->
  minSustainPollPeriods c = 2 ^ 32 - 1.
Proof.
  intros H. unfold minSustainPollPeriods.
  destruct (Z.leb_spec (MinSustain c) 0); [reflexivity|].
  destruct (Z.leb_spec (PollInterval c) 0); [reflexivity|]. lia.
Qed.

(** For valid intervals the result is the ceiling, cut to 32 bits. *)
Lemma minSustainPollPeriods_valid c :
  is_int64 (MinSustain c) ->
  0 < MinSustain c -> 0 < PollInterval c ->
  minSustainPollPeriods c
  = to_uint32 (ceil_div (MinSustain c) (PollInterval c)).
Proof.
  intros Hr Ha Hb. unfold minSustainPollPeriods.
  destruct (Z.leb_spec (MinSustain c) 0); [lia|].
  destruct (Z.leb_spec (PollInterval c) 0); [lia|]. cbn [orb].
  unfold is_int64 in Hr.
  assert (Hq : 0 <= Z.quot (MinSustain c) (PollInterval c) <= MinSustain c).
  { rewrite Z.quot_div_nonneg by lia. split.
    - apply Z.div_pos; lia.
    - apply Z.div_le_upper_bound; nia. }
  assert (Hm : 0 <= Z.rem (MinSustain c) (PollInterval c) < PollInterval c).
  { apply Z.rem_bound_pos; lia. }
  assert (Hqm : MinSustain c
                = PollInterval c * Z.quot (MinSustain c) (PollInterval c)
                  + Z.rem (MinSustain c) (PollInterval c)).
  { apply Z.quot_rem'. }
  rewrite <- (quot_round_up _ _ Ha Hb).
  rewrite (to_int64_id (Z.quot _ _)) by (unfold is_int64; lia).
  rewrite (to_int64_id (Z.rem _ _)) by (unfold is_int64; nia).
  destruct (Z.ltb_spec 0 (Z.rem (MinSustain c) (PollInterval c))); [|reflexivity].
  rewrite to_int64_id; [reflexivity|]. unfold is_int64. nia.
Qed.

(** Closed comparisons between numerals, by evaluation. *)
Ltac by_eval :=
  repeat split; vm_compute; first [reflexivity | discriminate].

Lemma cfg_sustain_wf a b : is_int64 a -> is_int64 b -> ProcCfg_wf (cfg_sustain a b).
Proof.
  intros Ha Hb. split; cbn; try assumption; unfold is_uint32, is_int64; lia.
Qed.

(** C4, amended.  [minSustainPollPeriods] returns [2^32 - 1] whenever
    [MinSustain <= 0] or [PollInterval <= 0]; for positive intervals
    whose ceiling of [MinSustain / PollInterval] is at most [2^32 - 1]
    it returns that ceiling. *)
Theorem minSustainPollPeriods_ceil (c : ProcCfg) :
  ProcCfg_wf c ->
  (MinSustain c <= 0 \/ PollInterval c <= 0 ->
   minSustainPollPeriods c = 2 ^ 32 - 1) /\
  (0 < MinSustain c -> 0 < PollInterval c ->
   ceil_div (MinSustain c) (PollInterval c) <= 2 ^ 32 - 1 ->
   minSustainPollPeriods c = ceil_div (MinSustain c) (PollInterval c)).
Proof.
  intros Hwf. split.
  - apply minSustainPollPeriods_invalid.
  - intros Ha Hb Hfit.
    rewrite minSustainPollPeriods_valid by (try apply Hwf; assumption).
    apply to_uint32_id. unfold is_uint32.
    pose proof (ceil_div_spec (MinSustain c) (PollInterval c) Hb). nia.
Qed.

Lemma minSustainPollPeriods_ceil_witness :
  minSustainPollPeriods MinBlockingProcConfig = 2 ^ 32 - 1
  /\ minSustainPollPeriods cfg_110ms_20ms = 6.
Proof.
  split.
  - apply (proj1 (minSustainPollPeriods_ceil MinBlockingProcConfig
                    ltac:(split; by_eval))).
    left. by_eval.
  - change 6 with (ceil_div (MinSustain cfg_110ms_20ms) (PollInterval cfg_110ms_20ms)).
    apply (proj2 (minSustainPollPeriods_ceil cfg_110ms_20ms
                    ltac:(apply cfg_sustain_wf; by_eval))).
    + by_eval.
    + by_eval.
    + by_eval.
Defined.

(** C4 as stated fails: with [MinSustain] = 5 s and [PollInterval] =
    1 ns both intervals are valid, the ceiling is 5 000 000 000, and
    the function returns 705 032 704. *)
Lemma minSustainPollPeriods_not_ceil :
  ProcCfg_wf cfg_5s_1ns
  /\ 0 < MinSustain cfg_5s_1ns /\ 0 < PollInterval cfg_5s_1ns
  /\ ceil_div (MinSustain cfg_5s_1ns) (PollInterval cfg_5s_1ns) = 5000000000
  /\ minSustainPollPeriods cfg_5s_1ns = 705032704
  /\ minSustainPollPeriods cfg_5s_1ns
     <> ceil_div (MinSustain cfg_5s_1ns) (PollInterval cfg_5s_1ns).
Proof.
  split; [apply cfg_sustain_wf; by_eval|].
  repeat split; try reflexivity.
  vm_compute. discriminate.
Qed.

(** * waitCounter.acc *)

Lemma acc_waits c v :
  0 < v -> acc c v = {| waits := to_uint32 (waits c + 1); noWaits := 0 |}.
Proof. intros H. unfold acc. destruct (Z.ltb_spec 0 v); [reflexivity|lia]. Qed.

Lemma acc_noWaits c v :
  v <= 0 -> acc c v = {| waits := 0; noWaits := to_uint32 (noWaits c + 1) |}.
Proof. intros H. unfold acc. destruct (Z.ltb_spec 0 v); [lia|reflexivity]. Qed.

Lemma acc_wf c v : waitCounter_wf (acc c v).
Proof.
  unfold acc, waitCounter_wf.
  destruct (0 <? v); cbn; split;
    try apply to_uint32_range; unfold is_uint32; lia.
Qed.

(** C3, amended.  [acc v] increments [waits] modulo [2^32] and resets
    [noWaits] when [v > 0], and increments [noWaits] modulo [2^32] and
    resets [waits] otherwise; afterwards at least one of the two
    fields is zero, and exactly one is zero whenever the incremented
    field was below [2^32 - 1]. *)
Theorem acc_one_zero (c : waitCounter) (v : Z) :
  waitCounter_wf c ->
  (0 < v -> waits (acc c v) = (waits c + 1) mod 2 ^ 32 /\ noWaits (acc c v) = 0)
  /\ (v <= 0 -> noWaits (acc c v) = (noWaits c + 1) mod 2 ^ 32 /\ waits (acc c v) = 0)
  /\ (waits (acc c v) = 0 \/ noWaits (acc c v) = 0)
  /\ ((if 0 <? v then waits c else noWaits c) < 2 ^ 32 - 1 ->
      one_zero (acc c v)
      /\ (if 0 <? v then waits (acc c v) = waits c + 1
          else noWaits (acc c v) = noWaits c + 1)).
Proof.
  intros [Hw Hn]. unfold is_uint32 in Hw, Hn.
  repeat split.
  - rewrite acc_waits by assumption. reflexivity.
  - rewrite acc_waits by assumption. reflexivity.
  - rewrite acc_noWaits by assumption. reflexivity.
  - rewrite acc_noWaits by assumption. reflexivity.
  - unfold acc. destruct (0 <? v); cbn; auto.
  - unfold acc, one_zero. destruct (0 <? v); cbn in *.
    + right. rewrite to_uint32_id by (unfold is_uint32; lia). lia.
    + left. rewrite to_uint32_id by (unfold is_uint32; lia). lia.
  - unfold acc. destruct (0 <? v); cbn in *;
      apply to_uint32_id; unfold is_uint32; lia.
Qed.

Lemma acc_one_zero_witness :
  one_zero (acc ctr_3_0 7) /\ waits (acc ctr_3_0 7) = 4
  /\ one_zero (acc ctr_3_0 0) /\ noWaits (acc ctr_3_0 0) = 1.
Proof.
  assert (Hwf : waitCounter_wf ctr_3_0) by by_eval.
  pose proof (proj2 (proj2 (proj2 (acc_one_zero ctr_3_0 7 Hwf)))
                ltac:(by_eval)) as [H1 H2].
  pose proof (proj2 (proj2 (proj2 (acc_one_zero ctr_3_0 0 Hwf)))
                ltac:(by_eval)) as [H3 H4].
  repeat split; assumption.
Defined.

(** C3 as stated fails: when [waits] holds [2^32 - 1], [acc 1] wraps
    it to 0 while [noWaits] is reset to 0, and both fields are zero. *)
Lemma acc_both_zero :
  waitCounter_wf ctr_full
  /\ acc ctr_full 1 = {| waits := 0; noWaits := 0 |}
  /\ ~ one_zero (acc ctr_full 1).
Proof.
  split; [by_eval|].
  split; [reflexivity|].
  change (acc ctr_full 1) with {| waits := 0; noWaits := 0 |}.
  unfold one_zero. cbn. intros [[_ H]|[H _]]; apply H; reflexivity.
Qed.

(** * governor.updateCountersAndEvalScaling *)

(** The function touches the two counters and nothing else. *)
Lemma updateCountersAndEvalScaling_state g ics oc :
  let g' := snd (updateCountersAndEvalScaling g ics oc) in
  inCtr g' = acc (inCtr g) ics
  /\ (exists ocs, outCtr g' = acc (outCtr g) ocs)
  /\ minSust g' = minSust g /\ cfg g' = cfg g
  /\ streamers g' = streamers g /\ launchers g' = launchers g
  /\ lastScale g' = lastScale g /\ isClosing g' = isClosing g
  /\ nextWId g' = nextWId g /\ nonBlocking g' = nonBlocking g
  /\ id g' = id g.
Proof.
  unfold updateCountersAndEvalScaling. cbn zeta.
  repeat match goal with |- context [if ?b then _ else _] => destruct b end;
    cbn; repeat split; eauto.
Qed.

(** C2.  With the counters as [updateCountersAndEvalScaling] leaves
    them, the result is [+1] exactly when [inCtr.waits >= minSust] and
    [outCtr.noWaits >= minSust]; it is [-1] exactly when that
    condition fails and [inCtr.noWaits >= minSust]; and it is [0] in
    every other case. *)
Theorem updateCountersAndEvalScaling_result
    (g : governor) (ics : Z) (oc : ptr -> Z) :
  let s := fst (updateCountersAndEvalScaling g ics oc) in
  let g' := snd (updateCountersAndEvalScaling g ics oc) in
  (s = 1 <-> sustained_pressure g')
  /\ (s = -1 <-> sustained_idle g' /\ ~ sustained_pressure g')
  /\ (s = 0 <-> ~ sustained_pressure g' /\ ~ sustained_idle g')
  /\ (s = 1 \/ s = -1 \/ s = 0).
Proof.
  unfold updateCountersAndEvalScaling, sustained_pressure, sustained_idle.
  cbn zeta. set (g1 := set_outCtr _ _).
  destruct (Z.leb_spec (minSust g1) (waits (inCtr g1)));
    destruct (Z.leb_spec (minSust g1) (noWaits (outCtr g1)));
    destruct (Z.leb_spec (minSust g1) (noWaits (inCtr g1)));
    cbn [andb fst snd]; repeat split; intros; try lia; auto.
Qed.

Lemma updateCountersAndEvalScaling_result_witness :
  fst (updateCountersAndEvalScaling gov_two_streamers 1 (fun _ => 0)) = 1
  /\ fst (updateCountersAndEvalScaling gov_two_streamers 0 (fun _ => 0)) = -1
  /\ fst (updateCountersAndEvalScaling gov_two_streamers 1 (fun _ => 1)) = 0.
Proof.
  split; [|split].
  - apply (proj1 (updateCountersAndEvalScaling_result
                    gov_two_streamers 1 (fun _ => 0))).
    by_eval.
  - apply (proj1 (proj2 (updateCountersAndEvalScaling_result
                           gov_two_streamers 0 (fun _ => 0)))).
    split; [by_eval|]. intros [H _]. vm_compute in H. apply H. reflexivity.
  - apply (proj1 (proj2 (proj2 (updateCountersAndEvalScaling_result
                                  gov_two_streamers 1 (fun _ => 1))))).
    split.
    + intros [_ H]. vm_compute in H. apply H. reflexivity.
    + intros H. vm_compute in H. apply H. reflexivity.
Defined.

(** * governor.allowedScaleDelta *)

Lemma len_nonneg m : 0 <= len m.
Proof. unfold len. lia. Qed.

(** The value of [prov] in the source, when the pool fits in 32 bits. *)
Lemma prov_conversion g :
  prov g < 2 ^ 32 ->
  uint32_of_int (to_int64 (len (streamers g) + len (launchers g))) = prov g.
Proof.
  intros H. unfold prov in *.
  pose proof (len_nonneg (streamers g)). pose proof (len_nonneg (launchers g)).
  rewrite to_int64_id by (unfold is_int64; lia).
  apply to_uint32_id. unfold is_uint32. lia.
Qed.

(** The two [if]s that bound [req] compute [clamp]. *)
Lemma clamp_ifs lo hi x :
  (let r := if x <? lo then lo else x in if hi <? r then hi else r)
  = clamp lo hi x.
Proof.
  unfold clamp. cbn zeta.
  destruct (Z.ltb_spec x lo); destruct (Z.ltb_spec hi lo);
    destruct (Z.ltb_spec hi x); lia.
Qed.

Lemma clamp_range lo hi x : lo <= hi -> lo <= clamp lo hi x <= hi.
Proof. unfold clamp. lia. Qed.

Lemma clamp_uint32 lo hi x :
  is_uint32 lo -> is_uint32 hi -> is_uint32 (clamp lo hi x).
Proof. unfold clamp, is_uint32. lia. Qed.

(** A launcher is in flight exactly when the map is not empty. *)
Lemma launchers_in_flight (m : gmap ptr chan) :
  (0 <? len m) = negb (len m =? 0).
Proof.
  pose proof (len_nonneg m).
  destruct (Z.ltb_spec 0 (len m)); destruct (Z.eqb_spec (len m) 0);
    cbn; lia || reflexivity.
Qed.

(** The bounding of [req] and the final subtraction, free of
    conversions. *)
Lemma delta_conversion lo hi x p :
  is_uint32 lo -> is_uint32 hi -> is_uint32 p ->
  to_int64 (int_of_uint32
              (let r := if x <? lo then lo else x in if hi <? r then hi else r)
            - int_of_uint32 p)
  = clamp lo hi x - p.
Proof.
  intros Hlo Hhi Hp. rewrite clamp_ifs.
  pose proof (clamp_uint32 _ _ x Hlo Hhi) as Hc.
  rewrite (int_of_uint32_id _ Hc), (int_of_uint32_id _ Hp).
  apply to_int64_id. unfold is_int64, is_uint32 in *. lia.
Qed.

Lemma prov_uint32 g : prov g < 2 ^ 32 -> is_uint32 (prov g).
Proof.
  unfold is_uint32, prov. intros H.
  pose proof (len_nonneg (streamers g)). pose proof (len_nonneg (launchers g)).
  lia.
Qed.

#[local] Hint Resolve clamp_uint32 prov_uint32 : mach.

Section ScaleGate.

(** The pool bounds of the governor at hand hold [uint32] values. *)
Variable g : governor.
Hypothesis Hmin : is_uint32 (MinConns (cfg g)).
Hypothesis Hmax : is_uint32 (MaxConns (cfg g)).

(** C1.  [allowedScaleDelta] returns 0 if [isClosing], or if [now] is
    within [SettlePeriod] of [lastScale], or if a launcher is in flight
    in blocking mode, or (up) if [prov >= MaxConns], or (down) if
    [prov <= MinConns], with [prov = |streamers| + |launchers|];
    otherwise it returns [req - prov], where [req] is [Scale.Apply
    prov] (up) or [Scale.ApplyInverse prov] (down) clamped into
    [MinConns, MaxConns]. *)
Theorem allowedScaleDelta_refines_spec (now : Time) (up : bool) :
  prov g < 2 ^ 32 ->
  allowedScaleDelta g now up = allowedScaleDelta_spec g now up.
Proof.
  intros Hfit.
  unfold allowedScaleDelta, allowedScaleDelta_spec, gate_closed.
  rewrite prov_conversion, launchers_in_flight by assumption.
  destruct (isClosing g); [reflexivity|]. cbn [orb].
  unfold Time_After, Time_Add.
  destruct (now <? lastScale g + SettlePeriod (cfg g)); [reflexivity|].
  cbn [orb].
  destruct (negb (nonBlocking g) && negb (len (launchers g) =? 0));
    [reflexivity|]. cbn [orb].
  destruct up.
  - destruct (MaxConns (cfg g) <=? prov g); [reflexivity|].
    apply delta_conversion; auto with mach.
  - destruct (prov g <=? MinConns (cfg g)); [reflexivity|].
    apply delta_conversion; auto with mach.
Qed.

(** The gate on a governor that has just been set up. *)
Lemma allowedScaleDelta_fresh (now : Time) :
  is_int64 (SettlePeriod (cfg g)) ->
  1 <= MaxConns (cfg g) ->
  unixEpoch <= now ->
  isClosing g = false -> lastScale g = zeroTime ->
  streamers g = ∅ -> launchers g = ∅ ->
  allowedScaleDelta g now forScaleUp
  = clamp (MinConns (cfg g)) (MaxConns (cfg g)) (Apply (scale (cfg g)) 0).
Proof.
  intros Hsp Hpos Hnow Hc Hls Hs Hl.
  unfold allowedScaleDelta, forScaleUp. rewrite Hc, Hls, Hs, Hl.
  change (len (∅ : gmap ptr chan)) with 0.
  change (uint32_of_int (to_int64 (0 + 0))) with 0.
  assert (Hu : 2 ^ 63 <= unixEpoch) by by_eval.
  unfold Time_After, Time_Add, is_int64, zeroTime in *.
  destruct (Z.ltb_spec now (0 + SettlePeriod (cfg g))); [lia|].
  rewrite andb_false_r.
  destruct (Z.leb_spec (MaxConns (cfg g)) 0); [lia|].
  rewrite delta_conversion; [lia | assumption | assumption | by_eval].
Qed.

End ScaleGate.

Lemma allowedScaleDelta_refines_spec_witness :
  allowedScaleDelta gov_two_streamers t_2017 forScaleUp
  = allowedScaleDelta_spec gov_two_streamers t_2017 forScaleUp.
Proof.
  apply allowedScaleDelta_refines_spec; by_eval.
Defined.

(** * governor.launchStreamer and governor.tryScaleUp *)

Lemma launchStreamer_fresh w :
  launchers (gov w) !! (fresh (dom (launchers (gov w))) : ptr) = None.
Proof. apply not_elem_of_dom. apply is_fresh. Qed.

Lemma launchStreamer_launchers w :
  launchers (gov (launchStreamer w))
  = <[fresh (dom (launchers (gov w))) := next_chan w]> (launchers (gov w)).
Proof. reflexivity. Qed.

Lemma launchStreamer_len w :
  len (launchers (gov (launchStreamer w))) = len (launchers (gov w)) + 1.
Proof.
  rewrite launchStreamer_launchers. unfold len.
  rewrite map_size_insert_None by apply launchStreamer_fresh. lia.
Qed.

Lemma launchStreamer_launched w :
  exists l,
    launched (launchStreamer w) = launched w ++ [l]
    /\ effects (launchStreamer w) = effects w ++ [go_launch l]
    /\ l_addr l = fresh (dom (launchers (gov w)))
    /\ l_ctl l = next_chan w
    /\ l_err l = None /\ l_worker l = None.
Proof.
  eexists. unfold launched, launchStreamer. cbn.
  rewrite omap_app. cbn. repeat split; reflexivity.
Qed.

Lemma launchStreamer_frame w :
  streamers (gov (launchStreamer w)) = streamers (gov w)
  /\ isClosing (gov (launchStreamer w)) = isClosing (gov w)
  /\ lastScale (gov (launchStreamer w)) = lastScale (gov w)
  /\ cfg (gov (launchStreamer w)) = cfg (gov w).
Proof. repeat split; reflexivity. Qed.

Lemma iter_launchStreamer n w :
  len (launchers (gov (Nat.iter n launchStreamer w)))
  = len (launchers (gov w)) + Z.of_nat n
  /\ length (launched (Nat.iter n launchStreamer w))
     = (length (launched w) + n)%nat
  /\ streamers (gov (Nat.iter n launchStreamer w)) = streamers (gov w)
  /\ lastScale (gov (Nat.iter n launchStreamer w)) = lastScale (gov w)
  /\ isClosing (gov (Nat.iter n launchStreamer w)) = isClosing (gov w)
  /\ cfg (gov (Nat.iter n launchStreamer w)) = cfg (gov w).
Proof.
  induction n as [|n IH].
  - cbn. repeat split; lia.
  - rewrite Nat.iter_succ. destruct IH as (IH1 & IH2 & IH3 & IH4 & IH5 & IH6).
    destruct (launchStreamer_launched (Nat.iter n launchStreamer w))
      as (l & Hl & _).
    rewrite launchStreamer_len, Hl, length_app. cbn [length].
    repeat split; try assumption; lia.
Qed.

Lemma emit_launched_other e w :
  (forall l, e <> go_launch l) -> launched (emit e w) = launched w.
Proof.
  intros H. unfold launched, emit. cbn. rewrite omap_app. cbn.
  destruct e; try (rewrite app_nil_r; reflexivity). exfalso. eapply H. reflexivity.
Qed.

(** What [tryScaleUp] does, in terms of the gate's answer. *)
Lemma tryScaleUp_count w now :
  let delta := allowedScaleDelta (gov w) now forScaleUp in
  let w' := tryScaleUp w now in
  len (launchers (gov w')) = len (launchers (gov w)) + Z.max 0 delta
  /\ Z.of_nat (length (launched w')) = Z.of_nat (length (launched w)) + Z.max 0 delta
  /\ streamers (gov w') = streamers (gov w)
  /\ lastScale (gov w') = lastScale (gov w)
  /\ isClosing (gov w') = isClosing (gov w)
  /\ cfg (gov w') = cfg (gov w).
Proof.
  cbn zeta. unfold tryScaleUp.
  set (delta := allowedScaleDelta (gov w) now forScaleUp).
  set (w1 := emit _ w).
  assert (Hl : launched w1 = launched w)
    by (apply emit_launched_other; discriminate).
  destruct (Z.leb_spec delta 0).
  - rewrite Hl. repeat split; try reflexivity; cbn; lia.
  - destruct (iter_launchStreamer (Z.to_nat delta) w1)
      as (H1 & H2 & H3 & H4 & H5 & H6).
    rewrite H1, H2, H3, H4, H5, H6, Hl.
    repeat split; try reflexivity; cbn; lia.
Qed.

(** * governor.run: the setup *)

Lemma emit_gov e w : gov (emit e w) = gov w.
Proof. reflexivity. Qed.

(** C9.  With [1 <= MinConns <= MaxConns], on a governor that is not
    closing and whose [lastScale] is the zero time, the [tryScaleUp]
    of the setup starts at least [MinConns] and at most [MaxConns]
    launchers, all of them registered, so that the provisioned pool
    holds at least [MinConns].  (The clock is assumed not to be set
    before 1970; nothing is needed of [Scale].) *)
Theorem run_setup_reaches_MinConns (g : governor) (now : Time) :
  is_uint32 (MinConns (cfg g)) ->
  is_uint32 (MaxConns (cfg g)) ->
  is_int64 (SettlePeriod (cfg g)) ->
  1 <= MinConns (cfg g) <= MaxConns (cfg g) ->
  unixEpoch <= now ->
  isClosing g = false ->
  lastScale g = zeroTime ->
  let w := run_setup g now in
  MinConns (cfg g) <= Z.of_nat (length (launched w)) <= MaxConns (cfg g)
  /\ len (launchers (gov w)) = Z.of_nat (length (launched w))
  /\ streamers (gov w) = ∅
  /\ MinConns (cfg g) <= prov (gov w) <= MaxConns (cfg g).
Proof.
  intros Hmin Hmax Hsp Hb Hnow Hc Hls. cbn zeta. unfold run_setup.
  set (w0 := emit go_runRetryForwarder _).
  assert (Hd : allowedScaleDelta (gov w0) now forScaleUp
               = clamp (MinConns (cfg g)) (MaxConns (cfg g))
                       (Apply (scale (cfg g)) 0)).
  { apply (allowedScaleDelta_fresh (gov w0)); try assumption; try reflexivity.
    change (1 <= MaxConns (cfg g)). lia. }
  pose proof (clamp_range (MinConns (cfg g)) (MaxConns (cfg g))
                (Apply (scale (cfg g)) 0) ltac:(lia)) as Hr.
  destruct (tryScaleUp_count w0 now) as (H1 & H2 & H3 & _).
  rewrite Hd in H1, H2.
  set (w1 := tryScaleUp w0 now) in *.
  assert (Hfinal : forall w2,
    gov w2 = gov w1 -> launched w2 = launched w1 ->
    MinConns (cfg g) <= Z.of_nat (length (launched w2)) <= MaxConns (cfg g)
    /\ len (launchers (gov w2)) = Z.of_nat (length (launched w2))
    /\ streamers (gov w2) = ∅
    /\ MinConns (cfg g) <= prov (gov w2) <= MaxConns (cfg g)).
  { intros w2 Hg Hl. unfold prov. rewrite Hg, Hl, H3.
    change (launched w0) with (@nil launcher) in H2.
    change (len (launchers (gov w0))) with 0 in H1.
    change (streamers (gov w0)) with (∅ : gmap ptr chan).
    change (len (∅ : gmap ptr chan)) with 0.
    cbn [length] in H2. repeat split; try reflexivity; lia. }
  apply Hfinal.
  - rewrite emit_gov. destruct (0 <? PollInterval (cfg (gov w1))); reflexivity.
  - rewrite emit_launched_other by discriminate.
    destruct (0 <? PollInterval (cfg (gov w1))); [|reflexivity].
    apply emit_launched_other. discriminate.
Qed.

Lemma run_setup_reaches_MinConns_witness :
  1 <= Z.of_nat (length (launched (run_setup gov_scaling t_2017))) <= 8
  /\ 1 <= prov (gov (run_setup gov_scaling t_2017)) <= 8.
Proof.
  pose proof (run_setup_reaches_MinConns gov_scaling t_2017
                ltac:(by_eval) ltac:(by_eval) ltac:(by_eval) ltac:(by_eval)
                ltac:(by_eval) eq_refl eq_refl) as (H1 & _ & _ & H2).
  split; [exact H1 | exact H2].
Defined.

(** * governor.run: a streamer exits *)

Lemma after_streamer_removed_launchers w s :
  launchers (gov (after_streamer_removed w s)) = launchers (gov w)
  /\ next_chan (after_streamer_removed w s) = next_chan w
  /\ launched (after_streamer_removed w s) = launched w.
Proof.
  unfold after_streamer_removed.
  destruct (inClosed s && negb (isClosing (gov w))); cbn; repeat split.
  unfold launched. cbn. rewrite omap_app. cbn. apply app_nil_r.
Qed.

(** C10.  When a streamer exits with [didQuit] set, the governor calls
    [launchStreamer]: a launcher at a fresh address is added to
    [launchers] and its goroutine is started, whether or not
    [isClosing] is set; the iteration therefore never ends the loop,
    even where the same exit without [didQuit] would have ended it
    (closing, both maps empty). *)
Theorem streamer_exit_didQuit_relaunches (w : world) (s : streamer) :
  didQuit s = true ->
  let w' := fst (loop_body w (WExit s)) in
  let a : ptr := fresh (dom (launchers (gov w))) in
  launchers (gov w) !! a = None
  /\ launchers (gov w') = <[a := next_chan w]> (launchers (gov w))
  /\ len (launchers (gov w')) = len (launchers (gov w)) + 1
  /\ (exists l, launched w' = launched w ++ [l] /\ l_addr l = a)
  /\ streamers (gov w') = delete (s_addr s) (streamers (gov w))
  /\ snd (loop_body w (WExit s)) = false
  /\ (isClosing (gov w) = true ->
      delete (s_addr s) (streamers (gov w)) = ∅ ->
      launchers (gov w) = ∅ ->
      snd (loop_body w (WExit (with_didQuit false s))) = true).
Proof.
  intros Hq. cbn zeta.
  destruct (after_streamer_removed_launchers w s) as (Hl & Hn & Hd).
  assert (Hbody : loop_body w (WExit s)
                  = (launchStreamer (after_streamer_removed w s), false)).
  { unfold loop_body. fold (after_streamer_removed w s). rewrite Hq.
    pose proof (launchStreamer_len (after_streamer_removed w s)) as Hlen.
    pose proof (len_nonneg (launchers (gov (after_streamer_removed w s)))).
    destruct (isClosing (gov (launchStreamer (after_streamer_removed w s))));
      cbn [negb andb]; [|reflexivity].
    f_equal. apply andb_false_intro2. apply Z.eqb_neq. lia. }
  rewrite Hbody. cbn [fst snd]. split; [|split; [|split; [|split; [|split; [|split]]]]].
  - apply launchStreamer_fresh.
  - rewrite launchStreamer_launchers, Hl, Hn. reflexivity.
  - rewrite launchStreamer_len, Hl. reflexivity.
  - destruct (launchStreamer_launched (after_streamer_removed w s))
      as (l & H1 & _ & H2 & _).
    exists l. rewrite H1, Hd, H2, Hl. split; reflexivity.
  - cbn. unfold after_streamer_removed.
    destruct (inClosed s && negb (isClosing (gov w))); reflexivity.
  - reflexivity.
  - intros Hc He Hle. unfold loop_body, with_didQuit. cbn [inClosed didQuit s_addr].
    rewrite Hc. cbn [negb andb]. rewrite andb_false_r. cbn.
    rewrite Hc, He, Hle. reflexivity.
Qed.

Lemma streamer_exit_didQuit_relaunches_witness :
  isClosing (gov world_draining) = true
  /\ len (launchers (gov (fst (loop_body world_draining (WExit streamer_7_quit)))))
     = len (launchers (gov world_draining)) + 1
  /\ snd (loop_body world_draining (WExit streamer_7_quit)) = false
  /\ snd (loop_body world_draining (WExit (with_didQuit false streamer_7_quit)))
     = true.
Proof.
  pose proof (streamer_exit_didQuit_relaunches world_draining streamer_7_quit
                eq_refl) as (_ & _ & H3 & _ & _ & H6 & H7).
  split; [reflexivity|].
  split; [exact H3|].
  split; [exact H6|].
  apply H7; [reflexivity | by vm_compute | reflexivity].
Defined.

(** * Launcher: a failed launch *)

Lemma launch_failed_record l a c e :
  launch_failed l a c e
  = {| l_addr := l_addr l; l_id := l_id l; l_ctl := l_ctl l;
       l_err := Some e; l_worker := l_worker l |}.
Proof. reflexivity. Qed.

(** The launcher-exit branch on a record without a streamer. *)
Lemma loop_body_failed_launch w l e :
  l_worker l = None -> l_err l = Some e ->
  loop_body w (LExit l)
  = (emit (logWarn (id (gov w)) "Error starting streamer: %v" e)
          (set_gov (set_launchers (delete (l_addr l) (launchers (gov w))) (gov w)) w),
     isClosing (gov w)
     && ((len (streamers (gov w)) =? 0)
         && (len (delete (l_addr l) (launchers (gov w))) =? 0))).
Proof.
  intros Hw He. unfold loop_body. rewrite Hw, He.
  cbn [negb andb gov emit set_gov isClosing set_launchers streamers launchers id].
  destruct (isClosing (gov w)); reflexivity.
Qed.

(** C8.  When [start] fails with [e], the launcher's record carries
    [e] and no streamer, and it is that record which [launch] offers on
    the exit channel.  On receiving it the governor removes the
    launcher from [launchers], logs the error, leaves [streamers]
    alone, starts no launcher, and goes on with its loop (which ends
    in this iteration only by the drain rule). *)
Theorem failed_launch_is_discarded
    (l : launcher) (a : ptr) (c : chan) (e : error) (w : world) :
  l_worker l = None ->
  let l' := launch_failed l a c e in
  let r := loop_body w (LExit l') in
  (l_err l' = Some e /\ l_worker l' = None /\ l_addr l' = l_addr l)
  /\ launch l a c (Some e) SentDone = (l', Some l')
  /\ launch l a c (Some e) CtlClosed = (l', None)
  /\ launchers (gov (fst r)) = delete (l_addr l) (launchers (gov w))
  /\ streamers (gov (fst r)) = streamers (gov w)
  /\ effects (fst r)
     = effects w ++ [logWarn (id (gov w)) "Error starting streamer: %v" e]
  /\ launched (fst r) = launched w
  /\ nextWId (gov (fst r)) = nextWId (gov w)
  /\ isClosing (gov (fst r)) = isClosing (gov w)
  /\ snd r = isClosing (gov w)
             && ((len (streamers (gov w)) =? 0)
                 && (len (delete (l_addr l) (launchers (gov w))) =? 0)).
Proof.
  intros Hw. cbn zeta. rewrite launch_failed_record, Hw.
  split; [repeat split|].
  split; [unfold launch; cbn; rewrite Hw; reflexivity|].
  split; [unfold launch; cbn; rewrite Hw; reflexivity|].
  rewrite (loop_body_failed_launch w _ e) by reflexivity.
  cbn [fst snd l_addr]. repeat split.
  etransitivity; [apply emit_launched_other; discriminate | reflexivity].
Qed.

Lemma failed_launch_is_discarded_witness :
  l_err (launch_failed launcher_0 100%nat 1000%nat "dial tcp: timeout")
  = Some "dial tcp: timeout"
  /\ launchers (gov (fst (loop_body (run_setup gov_scaling t_2017)
       (LExit (launch_failed launcher_0 100%nat 1000%nat "dial tcp: timeout")))))
     = delete 0%nat (launchers (gov (run_setup gov_scaling t_2017)))
  /\ launched (fst (loop_body (run_setup gov_scaling t_2017)
       (LExit (launch_failed launcher_0 100%nat 1000%nat "dial tcp: timeout"))))
     = launched (run_setup gov_scaling t_2017).
Proof.
  pose proof (failed_launch_is_discarded launcher_0 100%nat 1000%nat
                "dial tcp: timeout" (run_setup gov_scaling t_2017) eq_refl)
    as ((H1 & _) & _ & _ & H4 & _ & _ & H7 & _).
  split; [exact H1|]. split; [exact H4 | exact H7].
Defined.

(** * The retry forwarder *)

(** C7.  With [MaxRetries = 0], [runRetryForwarder] returns at once:
    [g.retry] stays [nil], no channel is allocated and no buffered
    forwarder is started; hence nothing is ever put on the client's
    retry channel by the retry path, whatever requests and schedules
    the surroundings offer. *)
Theorem retry_path_disabled
    (g : governor) (evs : list rf_event) (sched : chan -> list bf_event) :
  MaxRetries (cfg g) = 0 ->
  runRetryForwarder g evs = (None, [], true)
  /\ spawned (snd (fst (runRetryForwarder g evs))) = []
  /\ allocated (snd (fst (runRetryForwarder g evs))) = []
  /\ client_retry g evs sched = [].
Proof.
  intros H.
  assert (Hr : runRetryForwarder g evs = (None, [], true)).
  { unfold runRetryForwarder. rewrite H. reflexivity. }
  unfold client_retry. rewrite Hr. repeat split.
Qed.

Lemma retry_path_disabled_witness :
  client_retry (newGovernor "gov" MinBlockingProcConfig)
    [RecvRetry 1%nat; RecvRetry 2%nat]
    (fun _ => [BfRecv 1%nat true; BfRecv 2%nat true])
  = [].
Proof.
  apply (retry_path_disabled (newGovernor "gov" MinBlockingProcConfig)).
  reflexivity.
Defined.

(** [cnt] is never incremented: from a state with [cnt = 0] that has
    a sub-buffer, a received request only adds a send on it. *)
Lemma rf_loop_body_keeps_buf st b req :
  cnt st = 0 -> buf st = Some b ->
  rf_loop_body st (RecvRetry req)
  = ({| buf := Some b; cnt := 0;
        rf_effects := rf_effects st ++ [send_buf b req];
        rf_next_chan := rf_next_chan st |}, false).
Proof.
  intros Hc Hb. unfold rf_loop_body. rewrite Hb, Hc.
  change (bufSize <=? 0) with false. cbn. rewrite Hb, Hc. reflexivity.
Qed.

Lemma omap_snoc_none {A B} (f : A -> option B) l x :
  f x = None -> omap f (l ++ [x]) = omap f l.
Proof. intros H. rewrite omap_app. cbn. rewrite H. apply app_nil_r. Qed.

Lemma sent_on_snoc b effs r :
  sent_on b (effs ++ [send_buf b r]) = sent_on b effs ++ [r].
Proof.
  unfold sent_on. rewrite omap_app. f_equal. cbn.
  destruct (decide (b = b)); [reflexivity | contradiction].
Qed.

Lemma rf_loop_keeps_buf reqs : forall st b,
  cnt st = 0 -> buf st = Some b ->
  let st' := fst (rf_loop st (map RecvRetry reqs)) in
  buf st' = Some b /\ cnt st' = 0
  /\ allocated (rf_effects st') = allocated (rf_effects st)
  /\ spawned (rf_effects st') = spawned (rf_effects st)
  /\ closed (rf_effects st') = closed (rf_effects st)
  /\ sent_on b (rf_effects st') = sent_on b (rf_effects st) ++ reqs
  /\ snd (rf_loop st (map RecvRetry reqs)) = false.
Proof.
  induction reqs as [|r reqs IH]; intros st b Hc Hb.
  - cbn. rewrite app_nil_r. repeat split; assumption.
  - cbn [map rf_loop]. rewrite (rf_loop_body_keeps_buf st b r Hc Hb).
    cbn zeta.
    match goal with |- context [rf_loop ?s _] =>
      destruct (IH s b eq_refl eq_refl) as (H1 & H2 & H3 & H4 & H5 & H6 & H7)
    end.
    cbn [rf_effects] in *.
    unfold allocated, spawned, closed in *.
    rewrite omap_snoc_none in H3, H4, H5 by reflexivity.
    rewrite sent_on_snoc, <- app_assoc in H6.
    repeat split; assumption.
Qed.

(** The forwarder allocates its one sub-buffer on the first request and
    keeps it for every later one. *)
Lemma runRetryForwarder_single_buffer g r reqs :
  MaxRetries (cfg g) <> 0 ->
  let effs := snd (fst (runRetryForwarder g (map RecvRetry (r :: reqs)))) in
  allocated effs = [1%nat] /\ spawned effs = [1%nat] /\ closed effs = []
  /\ sent_on 1%nat effs = r :: reqs.
Proof.
  intros Hm. cbn zeta.
  remember (runRetryForwarder g (map RecvRetry (r :: reqs))) as res eqn:Hres.
  unfold runRetryForwarder in Hres.
  destruct (Z.eqb_spec (MaxRetries (cfg g)) 0); [contradiction|].
  cbn [map rf_loop] in Hres. unfold rf_loop_body in Hres.
  cbn [buf cnt rf_effects rf_next_chan rf_rotate] in Hres.
  match type of Hres with context [rf_loop ?s _] =>
    destruct (rf_loop_keeps_buf reqs s 1%nat eq_refl eq_refl)
      as (_ & _ & H3 & H4 & H5 & H6 & H7);
    destruct (rf_loop s (map RecvRetry reqs)) as [st' d]
  end.
  cbn [fst snd] in *. subst d res. cbn [fst snd].
  rewrite H3, H4, H5, H6. repeat split.
Qed.

(** C5, at the failing input.  After 501 requests the forwarder has
    allocated one sub-buffer, started one buffered forwarder and closed
    nothing; the 501st request is sent on the sub-buffer that already
    received 500. *)
Theorem retry_forwarder_501_single_buffer :
  let effs :=
    snd (fst (runRetryForwarder gov_scaling (map RecvRetry requests_501))) in
  length requests_501 = 501%nat
  /\ allocated effs = [1%nat]
  /\ spawned effs = [1%nat]
  /\ closed effs = []
  /\ sent_on 1%nat effs = requests_501.
Proof.
  split; [reflexivity|].
  apply (runRetryForwarder_single_buffer gov_scaling 0%nat (seq 1 500)).
  discriminate.
Qed.

(** * governor.run: [lastScale] and the settle period *)

Lemma fst_if {A B} (b : bool) (a : A) (x y : B) :
  fst (if b then (a, x) else (a, y)) = a.
Proof. destruct b; reflexivity. Qed.

(** No iteration of the loop assigns [lastScale]. *)
Lemma loop_body_lastScale w ev :
  lastScale (gov (fst (loop_body w ev))) = lastScale (gov w).
Proof.
  unfold loop_body. destruct ev as [l|s|now ics oc|].
  - destruct (l_worker l); [|destruct (l_err l)]; rewrite fst_if; reflexivity.
  - destruct (didQuit s); rewrite fst_if;
      destruct (inClosed s && negb (isClosing (gov w))); reflexivity.
  - destruct (isClosing (gov w)) eqn:Hc; [rewrite fst_if; reflexivity|].
    pose proof (updateCountersAndEvalScaling_state (gov w) ics oc) as Hs.
    destruct (updateCountersAndEvalScaling (gov w) ics oc) as [s g'].
    cbn [snd] in Hs. destruct Hs as (_ & _ & _ & _ & _ & _ & Hls & _).
    destruct (0 <? s); [|destruct (s <? 0)]; rewrite fst_if;
      try exact Hls.
    destruct (tryScaleUp_count (set_gov g' w) now) as (_ & _ & _ & H & _).
    rewrite H. exact Hls.
  - rewrite fst_if. reflexivity.
Qed.

Lemma run_setup_lastScale g now :
  lastScale (gov (run_setup g now)) = lastScale g.
Proof.
  unfold run_setup. rewrite emit_gov.
  match goal with |- context [tryScaleUp ?w0 now] =>
    destruct (tryScaleUp_count w0 now) as (_ & _ & _ & H & _);
    destruct (0 <? PollInterval (cfg (gov (tryScaleUp w0 now))));
    rewrite ?emit_gov, H
  end; reflexivity.
Qed.

Lemma loop_lastScale evs : forall w,
  lastScale (gov (fst (loop w evs))) = lastScale (gov w).
Proof.
  induction evs as [|ev evs IH]; intros w; [reflexivity|].
  cbn [loop]. destruct (ready (gov w) ev); [|apply IH].
  pose proof (loop_body_lastScale w ev) as Hb.
  destruct (loop_body w ev) as [w' d]. cbn [fst] in Hb.
  destruct d; cbn [fst]; [exact Hb|]. rewrite IH. exact Hb.
Qed.

Lemma run_shutdown_gov w : gov (run_shutdown w) = gov w.
Proof.
  unfold run_shutdown. rewrite !emit_gov.
  assert (Hf : forall (l : list (ptr * chan)) w0,
    gov (foldl (fun w kc => emit (close_chan (snd kc)) w) w0 l) = gov w0).
  { induction l as [|x l IH]; intros w0; [reflexivity|]. cbn. rewrite IH.
    reflexivity. }
  rewrite Hf.
  match goal with |- gov (foldl _ ?w0 ?l) = _ =>
    change (gov (foldl (fun w kc => emit (close_chan (snd kc)) w) w0 l) = gov w)
  end.
  rewrite Hf. reflexivity.
Qed.

Lemma run_deferred_gov w : gov (run_deferred w) = gov w.
Proof. unfold run_deferred. destruct (0 <? _); reflexivity. Qed.

(** [lastScale] holds after a run what it held before: the field is
    read by [allowedScaleDelta] and written nowhere. *)
Lemma run_lastScale g now evs :
  lastScale (gov (fst (run g now evs))) = lastScale g.
Proof.
  unfold run. pose proof (loop_lastScale evs (run_setup g now)) as H.
  destruct (loop (run_setup g now) evs) as [w d]. cbn [fst] in H.
  destruct d; cbn [fst]; rewrite ?run_deferred_gov, ?run_shutdown_gov, H;
    apply run_setup_lastScale.
Qed.

(** C6, at the failing input.  With a settle period of 50 ms the run
    [events_pressure] starts one launcher at the setup, one more at
    the tick 20 ms later and two more at the tick 40 ms later: three
    scaling actions 20 ms apart.  The launchers that exit in the run
    are the ones it started, the loop is still running at the end, and
    [lastScale] is still the zero time. *)
Theorem scale_ups_within_SettlePeriod :
  SettlePeriod (cfg gov_scaling) = 50 * Millisecond
  /\ t_tick1 - t_2017 = 20 * Millisecond
  /\ t_tick2 - t_tick1 = 20 * Millisecond
  /\ launched (world_pressure 0) = [launcher_0]
  /\ launched (world_pressure 1) = [launcher_0]
  /\ launched (world_pressure 2) = [launcher_0; launcher_1]
  /\ launched (world_pressure 3) = [launcher_0; launcher_1]
  /\ length (launched (world_pressure 4)) = 4%nat
  /\ snd (run gov_scaling t_2017 events_pressure) = false
  /\ lastScale (gov (world_pressure 4)) = zeroTime.
Proof.
  repeat split; vm_compute; reflexivity.
Qed.

(** * Further properties of the governor, the launcher and the retry path *)

(** * The settings of a governor are never assigned *)

Lemma same_settings_refl g : same_settings g g.
Proof. repeat split. Qed.

Lemma same_settings_trans g1 g2 g3 :
  same_settings g1 g2 -> same_settings g2 g3 -> same_settings g1 g3.
Proof.
  unfold same_settings. intros (A1 & A2 & A3 & A4) (B1 & B2 & B3 & B4).
  repeat split; congruence.
Qed.

Lemma iter_launchStreamer_settings n w :
  same_settings (gov w) (gov (Nat.iter n launchStreamer w)).
Proof.
  induction n as [|n IH]; [apply same_settings_refl|].
  rewrite Nat.iter_succ. eapply same_settings_trans; [exact IH|].
  repeat split.
Qed.

Lemma tryScaleUp_settings w now :
  same_settings (gov w) (gov (tryScaleUp w now)).
Proof.
  unfold tryScaleUp. destruct (_ <=? 0); [repeat split|].
  apply (iter_launchStreamer_settings _ (emit _ w)).
Qed.

Lemma updateCountersAndEvalScaling_settings g ics oc :
  same_settings g (snd (updateCountersAndEvalScaling g ics oc)).
Proof.
  destruct (updateCountersAndEvalScaling_state g ics oc)
    as (_ & _ & H1 & H2 & _ & _ & _ & _ & _ & H3 & H4).
  repeat split; assumption.
Qed.

(** The part of an iteration after the [select], when [done] is not
    set by the branch taken. *)
Lemma loop_tail (W : world) :
  (let '(w, done) := (W, false) in
   if negb done && isClosing (gov w)
   then (w, (len (streamers (gov w)) =? 0) && (len (launchers (gov w)) =? 0))
   else (w, done))
  = (W, isClosing (gov W) && drained (gov W)).
Proof. cbn. unfold drained. destruct (isClosing (gov W)); reflexivity. Qed.

(** Every branch but the hard stop leaves [done] to the drain test. *)
Lemma loop_body_shape w ev :
  ev <> Stop ->
  exists w1,
    loop_body w ev = (w1, isClosing (gov w1) && drained (gov w1)).
Proof.
  intros Hev. unfold loop_body. destruct ev as [l|s|now ics oc|]; [| | |contradiction].
  - destruct (l_worker l); [|destruct (l_err l)];
      rewrite loop_tail; eexists; reflexivity.
  - destruct (didQuit s); rewrite loop_tail; eexists; reflexivity.
  - destruct (isClosing (gov w)) eqn:Hc; [rewrite loop_tail; eexists; reflexivity|].
    destruct (updateCountersAndEvalScaling (gov w) ics oc) as [s g'].
    destruct (0 <? s); [|destruct (s <? 0)];
      rewrite loop_tail; eexists; reflexivity.
Qed.

Lemma loop_body_stop w :
  loop_body w Stop = (emit (logInfo (id (gov w)) "Terminating.") w, true).
Proof. reflexivity. Qed.


Lemma len_zero_iff (m : gmap ptr chan) : (len m =? 0) = true <-> m = ∅.
Proof.
  unfold len. rewrite Z.eqb_eq. rewrite <- map_size_empty_iff. lia.
Qed.

Lemma drained_iff g :
  drained g = true <-> streamers g = ∅ /\ launchers g = ∅.
Proof.
  unfold drained. rewrite andb_true_iff, !len_zero_iff. reflexivity.
Qed.

(** * governor.run: when the loop ends *)

(** X1.  An iteration sets [done] exactly on a hard stop or when the
    governor is closing with both maps empty afterwards. *)
Theorem loop_body_done (w : world) (ev : event) :
  snd (loop_body w ev) = true
  <-> ev = Stop
      \/ (isClosing (gov (fst (loop_body w ev))) = true
          /\ streamers (gov (fst (loop_body w ev))) = ∅
          /\ launchers (gov (fst (loop_body w ev))) = ∅).
Proof.
  assert (Hd : ev = Stop \/ ev <> Stop)
    by (destruct ev; (left; reflexivity) || (right; discriminate)).
  destruct Hd as [->|Hne].
  - split; [left; reflexivity|]. intros _. reflexivity.
  - destruct (loop_body_shape w ev Hne) as [w1 Hw1]. rewrite Hw1.
    cbn [fst snd]. rewrite andb_true_iff, drained_iff.
    split; [intros H; right; exact H|]. intros [H|H]; [contradiction|exact H].
Qed.

Lemma loop_body_settings w ev :
  same_settings (gov w) (gov (fst (loop_body w ev))).
Proof.
  unfold loop_body. destruct ev as [l|s|now ics oc|].
  - destruct (l_worker l); [|destruct (l_err l)]; rewrite loop_tail;
      repeat split.
  - destruct (didQuit s); rewrite loop_tail;
      destruct (inClosed s && negb (isClosing (gov w))); repeat split.
  - destruct (isClosing (gov w)) eqn:Hc;
      [rewrite loop_tail; apply same_settings_refl|].
    pose proof (updateCountersAndEvalScaling_settings (gov w) ics oc) as Hs.
    destruct (updateCountersAndEvalScaling (gov w) ics oc) as [s g'].
    cbn [snd] in Hs.
    destruct (0 <? s); [|destruct (s <? 0)]; rewrite loop_tail; cbn [fst];
      try exact Hs.
    eapply same_settings_trans; [exact Hs|].
    apply (tryScaleUp_settings (set_gov g' w)).
  - cbn. apply same_settings_refl.
Qed.

Lemma loop_settings evs : forall w,
  same_settings (gov w) (gov (fst (loop w evs))).
Proof.
  induction evs as [|ev evs IH]; intros w; [apply same_settings_refl|].
  cbn [loop]. destruct (ready (gov w) ev); [|apply IH].
  pose proof (loop_body_settings w ev) as Hb.
  destruct (loop_body w ev) as [w' d]. cbn [fst] in Hb.
  destruct d; cbn [fst]; [exact Hb|].
  eapply same_settings_trans; [exact Hb|apply IH].
Qed.

(** * governor.run: the closing latch *)

Lemma loop_body_isClosing w ev :
  isClosing (gov w) = true ->
  isClosing (gov (fst (loop_body w ev))) = true.
Proof.
  intros Hc. unfold loop_body. destruct ev as [l|s|now ics oc|].
  - destruct (l_worker l); [|destruct (l_err l)]; rewrite loop_tail; exact Hc.
  - rewrite Hc, andb_false_r.
    destruct (didQuit s); rewrite loop_tail; exact Hc.
  - rewrite Hc, loop_tail. exact Hc.
  - cbn. exact Hc.
Qed.

(** X2.  [isClosing] is a latch.  A streamer exit with [inClosed] sets
    it, and no later event of the loop clears it. *)
Theorem isClosing_latched (w : world) (s : streamer) (evs : list event) :
  inClosed s = true ->
  isClosing (gov (fst (loop_body w (WExit s)))) = true
  /\ isClosing (gov (fst (loop w (WExit s :: evs)))) = true.
Proof.
  intros Hin.
  assert (H1 : isClosing (gov (fst (loop_body w (WExit s)))) = true).
  { unfold loop_body. rewrite Hin. cbn [andb].
    destruct (isClosing (gov w)) eqn:Hc; cbn [negb];
      destruct (didQuit s); rewrite loop_tail; cbn; try exact Hc; reflexivity. }
  split; [exact H1|].
  cbn [loop ready]. destruct (loop_body w (WExit s)) as [w' d]. cbn [fst] in H1.
  destruct d; cbn [fst]; [exact H1|].
  clear -H1. revert w' H1.
  induction evs as [|ev evs IH]; intros w Hc; [exact Hc|].
  cbn [loop]. destruct (ready (gov w) ev); [|apply IH; exact Hc].
  pose proof (loop_body_isClosing w ev Hc) as Hb.
  destruct (loop_body w ev) as [w' d]. cbn [fst] in Hb.
  destruct d; cbn [fst]; [exact Hb|apply IH; exact Hb].
Qed.

Lemma isClosing_latched_witness :
  isClosing (gov (fst (loop (run_setup gov_scaling t_2017)
                         [WExit streamer_8_closed; Tick t_tick1 1 (fun _ => 0);
                          LExit (launch_ok launcher_0 100%nat 1000%nat)])))
  = true.
Proof.
  apply (isClosing_latched (run_setup gov_scaling t_2017) streamer_8_closed
           [Tick t_tick1 1 (fun _ => 0);
            LExit (launch_ok launcher_0 100%nat 1000%nat)]).
  reflexivity.
Defined.

(** * governor.run: termination and the closing of channels *)

Lemma loop_stop evs : forall w, In Stop evs -> snd (loop w evs) = true.
Proof.
  induction evs as [|ev evs IH]; intros w Hin; [destruct Hin|].
  cbn [loop]. destruct Hin as [->|Hin].
  - cbn [ready]. rewrite loop_body_stop. reflexivity.
  - destruct (ready (gov w) ev); [|apply IH; exact Hin].
    destruct (loop_body w ev) as [w' d]. destruct d; [reflexivity|].
    apply IH. exact Hin.
Qed.

Lemma foldl_close_effects (l : list (ptr * chan)) : forall w,
  effects (foldl (fun w kc => emit (close_chan (snd kc)) w) w l)
  = effects w ++ map (fun kc => close_chan (snd kc)) l.
Proof.
  induction l as [|x l IH]; intros w; cbn [foldl map].
  - rewrite app_nil_r. reflexivity.
  - rewrite IH. cbn. rewrite <- app_assoc. reflexivity.
Qed.

Lemma foldl_close_gov (l : list (ptr * chan)) : forall w,
  gov (foldl (fun w kc => emit (close_chan (snd kc)) w) w l) = gov w.
Proof.
  induction l as [|x l IH]; intros w; [reflexivity|]. cbn. rewrite IH.
  reflexivity.
Qed.

(** What the shutdown part of [run] adds to the effects. *)
Lemma run_shutdown_effects w :
  effects (run_shutdown w)
  = effects w
    ++ [logInfo (id (gov w)) "Terminating launchers and streamers."]
    ++ map (fun kc => close_chan (snd kc)) (map_to_list (launchers (gov w)))
    ++ map (fun kc => close_chan (snd kc)) (map_to_list (streamers (gov w)))
    ++ [logInfo (id (gov w)) "Stopped."; close_done].
Proof.
  unfold run_shutdown. cbn [emit effects gov].
  rewrite !foldl_close_gov, !foldl_close_effects. cbn [emit effects gov].
  rewrite <- !app_assoc. reflexivity.
Qed.

(** X3.  On termination the governor closes the control channel of
    every launcher and every streamer still registered, and then
    [done]; the governor's fields are left as they were. *)
Theorem run_shutdown_closes_all (w : world) :
  (forall a c, launchers (gov w) !! a = Some c ->
               close_chan c ∈ effects (run_shutdown w))
  /\ (forall a c, streamers (gov w) !! a = Some c ->
                  close_chan c ∈ effects (run_shutdown w))
  /\ last (effects (run_shutdown w)) = Some close_done
  /\ length (List.filter is_close (effects (run_shutdown w)))
     = (length (List.filter is_close (effects w))
        + size (launchers (gov w)) + size (streamers (gov w)) + 1)%nat
  /\ gov (run_shutdown w) = gov w.
Proof.
  rewrite run_shutdown_effects.
  assert (Hin : forall (m : gmap ptr chan) a c,
    m !! a = Some c ->
    close_chan c ∈ map (fun kc => close_chan (snd kc)) (map_to_list m)).
  { intros m a c H. apply list_elem_of_fmap. exists (a, c). split; [reflexivity|].
    apply elem_of_map_to_list. exact H. }
  assert (Hcl : forall l : list (ptr * chan),
    length (List.filter is_close (map (fun kc => close_chan (snd kc)) l))
    = length l).
  { induction l as [|x l IH]; [reflexivity|]. cbn. rewrite IH. reflexivity. }
  split; [|split; [|split; [|split]]].
  - intros a c H. rewrite !elem_of_app. right. right. left. eapply Hin, H.
  - intros a c H. rewrite !elem_of_app. right. right. right. left. eapply Hin, H.
  - change [logInfo (id (gov w)) "Stopped."; close_done]
      with ([logInfo (id (gov w)) "Stopped."] ++ [close_done]).
    rewrite !app_assoc. apply last_snoc.
  - rewrite !List.filter_app, !length_app, !Hcl, !length_map_to_list.
    cbn [List.filter is_close length]. lia.
  - apply run_shutdown_gov.
Qed.

Lemma run_shutdown_closes_all_witness :
  close_chan 70%nat ∈ effects (run_shutdown world_draining)
  /\ last (effects (run_shutdown world_draining)) = Some close_done.
Proof.
  destruct (run_shutdown_closes_all world_draining) as (_ & H2 & H3 & _).
  split; [|exact H3]. apply (H2 7%nat). reflexivity.
Defined.

(** The loop emits log lines and starts launchers, nothing else: a
    class of effects that excludes these is left alone by it. *)
Section LoopEffects.

Variable p : effect -> bool.
Hypothesis p_logInfo : forall who msg, p (logInfo who msg) = false.
Hypothesis p_logWarn : forall who msg e, p (logWarn who msg e) = false.
Hypothesis p_logTrace : forall lvl who msg v, p (logTrace lvl who msg v) = false.
Hypothesis p_go_launch : forall l, p (go_launch l) = false.

Lemma filter_emit e w :
  p e = false ->
  List.filter p (effects (emit e w)) = List.filter p (effects w).
Proof.
  intros H. cbn [emit effects]. rewrite List.filter_app. cbn. rewrite H.
  apply app_nil_r.
Qed.

Lemma filter_launchStreamer w :
  List.filter p (effects (launchStreamer w)) = List.filter p (effects w).
Proof.
  unfold launchStreamer. cbn [effects]. rewrite List.filter_app. cbn.
  rewrite p_go_launch. apply app_nil_r.
Qed.

Lemma filter_iter_launchStreamer n w :
  List.filter p (effects (Nat.iter n launchStreamer w))
  = List.filter p (effects w).
Proof.
  induction n as [|n IH]; [reflexivity|]. rewrite Nat.iter_succ.
  rewrite filter_launchStreamer. exact IH.
Qed.

Lemma filter_tryScaleUp w now :
  List.filter p (effects (tryScaleUp w now)) = List.filter p (effects w).
Proof.
  unfold tryScaleUp. destruct (_ <=? 0).
  - apply filter_emit. apply p_logTrace.
  - rewrite filter_iter_launchStreamer. apply filter_emit. apply p_logTrace.
Qed.

Lemma filter_loop_body w ev :
  List.filter p (effects (fst (loop_body w ev))) = List.filter p (effects w).
Proof.
  unfold loop_body. destruct ev as [l|s|now ics oc|].
  - destruct (l_worker l); [|destruct (l_err l)]; rewrite loop_tail;
      cbn [fst]; try reflexivity.
    apply (filter_emit _ (set_gov _ w)). apply p_logWarn.
  - destruct (didQuit s); rewrite loop_tail; cbn [fst];
      rewrite ?filter_launchStreamer;
      destruct (inClosed s && negb (isClosing (gov w))); try reflexivity;
      apply (filter_emit _ w); apply p_logInfo.
  - destruct (isClosing (gov w)); [rewrite loop_tail; reflexivity|].
    destruct (updateCountersAndEvalScaling (gov w) ics oc) as [s g'].
    destruct (0 <? s); [|destruct (s <? 0)]; rewrite loop_tail; cbn [fst];
      try reflexivity.
    apply (filter_tryScaleUp (set_gov g' w)).
  - apply filter_emit. apply p_logInfo.
Qed.

Lemma filter_loop evs : forall w,
  List.filter p (effects (fst (loop w evs))) = List.filter p (effects w).
Proof.
  induction evs as [|ev evs IH]; intros w; [reflexivity|].
  cbn [loop]. destruct (ready (gov w) ev); [|apply IH].
  pose proof (filter_loop_body w ev) as Hb.
  destruct (loop_body w ev) as [w' d]. cbn [fst] in Hb.
  destruct d; cbn [fst]; [exact Hb|]. rewrite IH. exact Hb.
Qed.

End LoopEffects.

Lemma closes_loop evs w :
  List.filter is_close (effects (fst (loop w evs)))
  = List.filter is_close (effects w).
Proof. apply filter_loop; reflexivity. Qed.

Lemma closes_run_setup g now :
  List.filter is_close (effects (run_setup g now)) = [].
Proof.
  unfold run_setup. rewrite filter_emit by reflexivity.
  match goal with |- context [tryScaleUp ?w0 now] =>
    destruct (0 <? PollInterval (cfg (gov (tryScaleUp w0 now))));
    rewrite ?filter_emit by reflexivity;
    rewrite filter_tryScaleUp by reflexivity
  end; reflexivity.
Qed.

Lemma filter_nil_not_in (p : effect -> bool) (e : effect) l :
  p e = true -> List.filter p l = [] -> ~ e ∈ l.
Proof.
  intros He Hf Hin. apply list_elem_of_In in Hin.
  assert (Hx : In e (List.filter p l))
    by (apply List.filter_In; split; assumption).
  rewrite Hf in Hx. destruct Hx.
Qed.

(** X4.  The governor closes [done] when, and only when, [run] returns;
    until then it closes no channel at all.  In particular a hard stop
    anywhere among the events makes [run] return with [done] closed. *)
Theorem run_closes_done_on_return (g : governor) (now : Time) (evs : list event) :
  (close_done ∈ effects (fst (run g now evs)) <-> snd (run g now evs) = true)
  /\ (snd (run g now evs) = false ->
      List.filter is_close (effects (fst (run g now evs))) = [])
  /\ (In Stop evs -> snd (run g now evs) = true).
Proof.
  unfold run.
  pose proof (closes_loop evs (run_setup g now)) as Hcl.
  rewrite closes_run_setup in Hcl.
  pose proof (loop_stop evs (run_setup g now)) as Hstop.
  destruct (loop (run_setup g now) evs) as [w d]. cbn [fst snd] in *.
  destruct d; cbn [fst snd].
  - split; [|split]; [|discriminate|reflexivity].
    split; [reflexivity|]. intros _.
    assert (Hin : close_done ∈ effects (run_shutdown w)).
    { rewrite run_shutdown_effects, !elem_of_app. do 4 right.
      apply list_elem_of_In. right. left. reflexivity. }
    unfold run_deferred. destruct (0 <? _); [|exact Hin].
    cbn [emit effects]. apply elem_of_app. left. exact Hin.
  - split; [|split]; [|intros _; exact Hcl|exact Hstop].
    split; [|discriminate]. intros Hin. exfalso.
    eapply (filter_nil_not_in is_close close_done); [reflexivity|exact Hcl|exact Hin].
Qed.

Lemma run_closes_done_on_return_witness :
  snd (run gov_scaling t_2017
         [LExit (launch_ok launcher_0 100%nat 1000%nat); Stop;
          Tick t_tick1 1 (fun _ => 0)]) = true.
Proof.
  apply (run_closes_done_on_return gov_scaling t_2017
           [LExit (launch_ok launcher_0 100%nat 1000%nat); Stop;
            Tick t_tick1 1 (fun _ => 0)]).
  right. left. reflexivity.
Defined.

(** * The pool never grows beyond MaxConns *)

(** The gate never allows more than the room left below [MaxConns]. *)
Lemma allowedScaleDelta_up_bound g now :
  is_uint32 (MinConns (cfg g)) -> is_uint32 (MaxConns (cfg g)) ->
  prov g <= MaxConns (cfg g) ->
  allowedScaleDelta g now forScaleUp <= MaxConns (cfg g) - prov g.
Proof.
  intros Hmin Hmax Hle.
  assert (Hfit : prov g < 2 ^ 32) by (unfold is_uint32 in Hmax; lia).
  unfold allowedScaleDelta, forScaleUp.
  rewrite prov_conversion by assumption.
  destruct (isClosing g); [lia|].
  destruct (Time_After _ _); [lia|].
  destruct (negb (nonBlocking g) && _); [lia|].
  destruct (Z.leb_spec (MaxConns (cfg g)) (prov g)); [lia|].
  rewrite delta_conversion by (try assumption; apply prov_uint32; assumption).
  unfold clamp. lia.
Qed.

Lemma tryScaleUp_bound w now :
  is_uint32 (MinConns (cfg (gov w))) -> is_uint32 (MaxConns (cfg (gov w))) ->
  prov (gov w) <= MaxConns (cfg (gov w)) ->
  prov (gov (tryScaleUp w now)) <= MaxConns (cfg (gov w)).
Proof.
  intros Hmin Hmax Hle.
  pose proof (allowedScaleDelta_up_bound (gov w) now Hmin Hmax Hle) as Hd.
  destruct (tryScaleUp_count w now) as (H1 & _ & H3 & _).
  unfold prov in *. rewrite H1, H3. lia.
Qed.

Lemma len_delete_member (m : gmap ptr chan) a :
  is_Some (m !! a) -> len (delete a m) = len m - 1.
Proof.
  intros [c Hc]. unfold len.
  rewrite map_size_delete_Some by (exists c; exact Hc).
  assert (size m <> 0%nat).
  { apply map_size_non_empty_iff. intros ->. rewrite lookup_empty in Hc.
    discriminate. }
  lia.
Qed.

Lemma len_insert_le (m : gmap ptr chan) a c :
  len (<[a := c]> m) <= len m + 1.
Proof.
  unfold len. rewrite map_size_insert. destruct (m !! a); cbn; lia.
Qed.

(** An iteration on a member event keeps the pool within a bound. *)
Lemma loop_body_bound w ev :
  is_uint32 (MinConns (cfg (gov w))) -> is_uint32 (MaxConns (cfg (gov w))) ->
  member_event (gov w) ev = true ->
  prov (gov w) <= MaxConns (cfg (gov w)) ->
  prov (gov (fst (loop_body w ev))) <= MaxConns (cfg (gov w)).
Proof.
  intros Hmin Hmax Hmem Hle. unfold loop_body.
  destruct ev as [l|s|now ics oc|]; cbn [member_event] in Hmem.
  - apply bool_decide_eq_true in Hmem.
    pose proof (len_delete_member (launchers (gov w)) (l_addr l) Hmem) as Hd.
    destruct (l_worker l) as [s|]; [|destruct (l_err l)]; rewrite loop_tail;
      cbn [fst]; unfold prov in *; cbn [gov set_gov emit streamers launchers
        set_streamers set_launchers]; rewrite Hd; try lia.
    pose proof (len_insert_le (streamers (gov w)) (s_addr s) (s_ctl s)). lia.
  - apply bool_decide_eq_true in Hmem.
    pose proof (len_delete_member (streamers (gov w)) (s_addr s) Hmem) as Hd.
    assert (Hs : forall b : bool,
      streamers (gov (if b then set_gov (set_isClosing true (gov w))
                                 (emit (logInfo (id (gov w)) "Stopping.") w)
                      else w)) = streamers (gov w)
      /\ launchers (gov (if b then set_gov (set_isClosing true (gov w))
                                   (emit (logInfo (id (gov w)) "Stopping.") w)
                        else w)) = launchers (gov w))
      by (intros []; split; reflexivity).
    destruct (Hs (inClosed s && negb (isClosing (gov w)))) as [Hs1 Hs2].
    destruct (didQuit s); rewrite loop_tail; cbn [fst]; unfold prov in *.
    + rewrite launchStreamer_len. cbn [gov set_gov streamers launchers
        set_streamers launchStreamer set_launchers set_nextWId].
      rewrite Hs1, Hs2, Hd. lia.
    + cbn [gov set_gov streamers launchers set_streamers].
      rewrite Hs1, Hs2, Hd. lia.
  - destruct (isClosing (gov w)); [rewrite loop_tail; exact Hle|].
    destruct (updateCountersAndEvalScaling_state (gov w) ics oc)
      as (_ & _ & _ & Hcfg & Hst & Hla & _).
    destruct (updateCountersAndEvalScaling (gov w) ics oc) as [s g'].
    cbn [snd] in *.
    assert (Hp : prov g' = prov (gov w)) by (unfold prov; rewrite Hst, Hla; reflexivity).
    destruct (0 <? s); [|destruct (s <? 0)]; rewrite loop_tail; cbn [fst];
      try (cbn [tryWindDown gov set_gov]; rewrite Hp; exact Hle).
    rewrite <- Hcfg.
    apply (tryScaleUp_bound (set_gov g' w)); cbn [gov set_gov];
      rewrite ?Hcfg, ?Hp; assumption.
  - cbn. exact Hle.
Qed.

Lemma loop_bound evs : forall w,
  is_uint32 (MinConns (cfg (gov w))) -> is_uint32 (MaxConns (cfg (gov w))) ->
  members_only w evs = true ->
  prov (gov w) <= MaxConns (cfg (gov w)) ->
  prov (gov (fst (loop w evs))) <= MaxConns (cfg (gov w)).
Proof.
  induction evs as [|ev evs IH]; intros w Hmin Hmax Hmem Hle; [exact Hle|].
  cbn [loop members_only] in *.
  destruct (ready (gov w) ev); [|apply IH; assumption].
  apply andb_true_iff in Hmem as [Hm1 Hm2].
  pose proof (loop_body_bound w ev Hmin Hmax Hm1 Hle) as Hb.
  destruct (loop_body_settings w ev) as (_ & Hcfg & _).
  destruct (loop_body w ev) as [w' d]. cbn [fst] in *.
  destruct d; cbn [fst]; [exact Hb|].
  rewrite <- Hcfg. apply IH; rewrite ?Hcfg; assumption.
Qed.

Lemma run_setup_bound g now :
  is_uint32 (MinConns (cfg g)) -> is_uint32 (MaxConns (cfg g)) ->
  prov (gov (run_setup g now)) <= MaxConns (cfg g)
  /\ cfg (gov (run_setup g now)) = cfg g.
Proof.
  intros Hmin Hmax. unfold run_setup. rewrite emit_gov.
  set (w0 := emit go_runRetryForwarder _).
  assert (H0 : prov (gov w0) <= MaxConns (cfg (gov w0))).
  { change (0 + 0 <= MaxConns (cfg g)). unfold is_uint32 in Hmax. lia. }
  pose proof (tryScaleUp_bound w0 now Hmin Hmax H0) as Hb.
  destruct (tryScaleUp_settings w0 now) as (_ & Hcfg & _).
  destruct (0 <? PollInterval (cfg (gov (tryScaleUp w0 now))));
    rewrite ?emit_gov; split; assumption.
Qed.

(** X5.  Along a run in which every exit event comes from a registered
    launcher or streamer, the provisioned pool never exceeds
    [MaxConns]: neither the initial scale-up, nor a scale-up on a tick,
    nor a relaunch after a streamer quits takes it beyond. *)
Theorem pool_never_exceeds_MaxConns (g : governor) (now : Time) (evs : list event) :
  is_uint32 (MinConns (cfg g)) ->
  is_uint32 (MaxConns (cfg g)) ->
  members_only (run_setup g now) evs = true ->
  prov (gov (fst (run g now evs))) <= MaxConns (cfg g).
Proof.
  intros Hmin Hmax Hmem.
  destruct (run_setup_bound g now Hmin Hmax) as [Hb Hcfg].
  pose proof (loop_bound evs (run_setup g now)) as Hl.
  rewrite Hcfg in Hl. specialize (Hl Hmin Hmax Hmem Hb).
  unfold run. destruct (loop (run_setup g now) evs) as [w d]. cbn [fst] in Hl.
  destruct d; cbn [fst]; rewrite ?run_deferred_gov, ?run_shutdown_gov; exact Hl.
Qed.

Lemma pool_never_exceeds_MaxConns_witness :
  prov (gov (fst (run gov_scaling t_2017 events_pressure))) <= 8.
Proof.
  apply (pool_never_exceeds_MaxConns gov_scaling t_2017 events_pressure);
    by_eval.
Defined.

(** * governor.tryScaleUp in blocking mode *)

Lemma tryScaleUp_blocked w now :
  allowedScaleDelta (gov w) now forScaleUp <= 0 ->
  tryScaleUp w now
  = emit (logTrace 0 (id (gov w)) "tryScaleUp delta = %d"
            (allowedScaleDelta (gov w) now forScaleUp)) w.
Proof.
  intros H. unfold tryScaleUp.
  destruct (Z.leb_spec (allowedScaleDelta (gov w) now forScaleUp) 0);
    [reflexivity|lia].
Qed.

Lemma allowedScaleDelta_in_flight g now up :
  nonBlocking g = false -> launchers g <> ∅ ->
  allowedScaleDelta g now up = 0.
Proof.
  intros Hnb Hne. unfold allowedScaleDelta. rewrite Hnb.
  destruct (isClosing g); [reflexivity|].
  destruct (Time_After _ _); [reflexivity|].
  rewrite launchers_in_flight.
  destruct (len (launchers g) =? 0) eqn:Hz; [|reflexivity].
  apply len_zero_iff in Hz. contradiction.
Qed.

(** X6.  In the default blocking mode a second [tryScaleUp] right after
    a first one starts nothing: either the first started launchers,
    which are then in flight, or it was refused and is refused again.
    The launchers, their number and [nextWId] stay as the first call
    left them. *)
Theorem tryScaleUp_twice_blocking (w : world) (now : Time) :
  nonBlocking (gov w) = false ->
  launched (tryScaleUp (tryScaleUp w now) now) = launched (tryScaleUp w now)
  /\ gov (tryScaleUp (tryScaleUp w now) now) = gov (tryScaleUp w now).
Proof.
  intros Hnb.
  set (w1 := tryScaleUp w now).
  assert (Hd : allowedScaleDelta (gov w1) now forScaleUp <= 0).
  { destruct (Z.leb_spec (allowedScaleDelta (gov w) now forScaleUp) 0) as [H|H].
    - unfold w1. rewrite (tryScaleUp_blocked w now H). cbn [gov emit]. exact H.
    - destruct (tryScaleUp_count w now) as (H1 & _).
      destruct (tryScaleUp_settings w now) as (_ & _ & _ & Hn).
      fold w1 in H1, Hn.
      rewrite allowedScaleDelta_in_flight; [lia|congruence|].
      intros He. rewrite He in H1. change (len ∅) with 0 in H1.
      pose proof (len_nonneg (launchers (gov w))). lia. }
  rewrite (tryScaleUp_blocked w1 now Hd). split; [|reflexivity].
  apply emit_launched_other. discriminate.
Qed.

Lemma tryScaleUp_twice_blocking_witness :
  launched (tryScaleUp (tryScaleUp (run_setup gov_scaling t_2017) t_2017) t_2017)
  = launched (tryScaleUp (run_setup gov_scaling t_2017) t_2017).
Proof.
  apply (tryScaleUp_twice_blocking (run_setup gov_scaling t_2017) t_2017).
  reflexivity.
Defined.

(** * governor.run without a ticker *)

Lemma loop_no_ticker evs : forall w,
  PollInterval (cfg (gov w)) <= 0 ->
  loop w evs = loop w (List.filter (fun ev => negb (is_tick ev)) evs).
Proof.
  induction evs as [|ev evs IH]; intros w Hp; [reflexivity|].
  assert (Hr : forall ev', ready (gov w) ev' = negb (is_tick ev')).
  { intros [| | |]; cbn; try reflexivity.
    destruct (Z.ltb_spec 0 (PollInterval (cfg (gov w)))); [lia|reflexivity]. }
  cbn [loop List.filter]. rewrite Hr.
  destruct (negb (is_tick ev)) eqn:Ht; [|apply IH; exact Hp].
  cbn [loop]. rewrite Hr, Ht.
  destruct (loop_body_settings w ev) as (_ & Hcfg & _).
  destruct (loop_body w ev) as [w' d]. cbn [fst] in Hcfg.
  destruct d; [reflexivity|]. apply IH. rewrite Hcfg. exact Hp.
Qed.

Lemma iter_launchStreamer_counters n w :
  inCtr (gov (Nat.iter n launchStreamer w)) = inCtr (gov w)
  /\ outCtr (gov (Nat.iter n launchStreamer w)) = outCtr (gov w).
Proof.
  induction n as [|n IH]; [split; reflexivity|]. rewrite Nat.iter_succ.
  exact IH.
Qed.

Lemma tryScaleUp_counters w now :
  inCtr (gov (tryScaleUp w now)) = inCtr (gov w)
  /\ outCtr (gov (tryScaleUp w now)) = outCtr (gov w).
Proof.
  unfold tryScaleUp. destruct (_ <=? 0); [split; reflexivity|].
  apply (iter_launchStreamer_counters _ (emit _ w)).
Qed.

Lemma run_setup_settings g now :
  same_settings g (gov (run_setup g now))
  /\ inCtr (gov (run_setup g now)) = inCtr g
  /\ outCtr (gov (run_setup g now)) = outCtr g.
Proof.
  unfold run_setup. rewrite emit_gov.
  match goal with |- context [tryScaleUp ?w0 now] =>
    pose proof (tryScaleUp_settings w0 now) as Hs;
    pose proof (tryScaleUp_counters w0 now) as [Hi Ho];
    destruct (0 <? PollInterval (cfg (gov (tryScaleUp w0 now))));
    rewrite ?emit_gov
  end; repeat split; try apply Hs; assumption.
Qed.

(** Only the tick branch touches the wait counters. *)
Lemma loop_body_counters w ev :
  is_tick ev = false ->
  inCtr (gov (fst (loop_body w ev))) = inCtr (gov w)
  /\ outCtr (gov (fst (loop_body w ev))) = outCtr (gov w).
Proof.
  intros Ht. unfold loop_body. destruct ev as [l|s|now ics oc|];
    [| |discriminate|].
  - destruct (l_worker l); [|destruct (l_err l)]; rewrite loop_tail;
      split; reflexivity.
  - destruct (didQuit s); rewrite loop_tail;
      destruct (inClosed s && negb (isClosing (gov w))); split; reflexivity.
  - split; reflexivity.
Qed.

Lemma loop_counters evs : forall w,
  forallb (fun ev => negb (is_tick ev)) evs = true ->
  inCtr (gov (fst (loop w evs))) = inCtr (gov w)
  /\ outCtr (gov (fst (loop w evs))) = outCtr (gov w).
Proof.
  induction evs as [|ev evs IH]; intros w Hall; [split; reflexivity|].
  cbn [forallb] in Hall. apply andb_true_iff in Hall as [Ht Hall].
  apply negb_true_iff in Ht.
  cbn [loop]. destruct (ready (gov w) ev); [|apply IH; exact Hall].
  pose proof (loop_body_counters w ev Ht) as [Hi Ho].
  destruct (loop_body w ev) as [w' d]. cbn [fst] in Hi, Ho.
  destruct d; cbn [fst]; [split; assumption|].
  destruct (IH w' Hall) as [Hi' Ho']. split; congruence.
Qed.

Lemma filter_ticker_closes (l : list (ptr * chan)) :
  List.filter is_ticker (map (fun kc => close_chan (snd kc)) l) = [].
Proof. induction l as [|x l IH]; [reflexivity|]. cbn. exact IH. Qed.

(** X7.  With [PollInterval <= 0] no ticker is created and the loop
    never takes the tick branch: the run is the same as without the
    ticks, and the wait counters are never sampled. *)
Theorem run_without_ticker (g : governor) (now : Time) (evs : list event) :
  PollInterval (cfg g) <= 0 ->
  run g now evs = run g now (List.filter (fun ev => negb (is_tick ev)) evs)
  /\ List.filter is_ticker (effects (fst (run g now evs))) = []
  /\ inCtr (gov (fst (run g now evs))) = inCtr g
  /\ outCtr (gov (fst (run g now evs))) = outCtr g.
Proof.
  intros Hp.
  destruct (run_setup_settings g now) as ((_ & Hcfg & _) & Hi0 & Ho0).
  assert (Hrun : run g now evs
                 = run g now (List.filter (fun ev => negb (is_tick ev)) evs)).
  { unfold run. rewrite (loop_no_ticker evs) by (rewrite Hcfg; exact Hp).
    reflexivity. }
  split; [exact Hrun|]. rewrite Hrun. clear Hrun.
  set (evs' := List.filter (fun ev => negb (is_tick ev)) evs).
  assert (Hall : forallb (fun ev => negb (is_tick ev)) evs' = true).
  { apply forallb_forall. intros ev Hin. apply List.filter_In in Hin. tauto. }
  pose proof (loop_counters evs' (run_setup g now) Hall) as [Hi Ho].
  pose proof (filter_loop is_ticker ltac:(reflexivity) ltac:(reflexivity)
                ltac:(reflexivity) ltac:(reflexivity) evs' (run_setup g now))
    as Hf.
  pose proof (loop_settings evs' (run_setup g now)) as (_ & Hc & _).
  assert (Hf0 : List.filter is_ticker (effects (run_setup g now)) = []).
  { unfold run_setup. rewrite filter_emit by reflexivity.
    match goal with |- context [tryScaleUp ?w0 now] =>
      destruct (tryScaleUp_settings w0 now) as (_ & Hc1 & _);
      rewrite Hc1
    end.
    cbn [gov emit set_gov cfg set_launchers set_streamers].
    destruct (Z.ltb_spec 0 (PollInterval (cfg g))); [lia|].
    rewrite filter_tryScaleUp by reflexivity. reflexivity. }
  rewrite Hf0 in Hf. rewrite Hi0 in Hi. rewrite Ho0 in Ho. rewrite Hcfg in Hc.
  unfold run. destruct (loop (run_setup g now) evs') as [w d].
  cbn [fst] in *.
  destruct d; cbn [fst]; [|repeat split; assumption].
  unfold run_deferred. rewrite run_shutdown_gov, Hc.
  destruct (Z.ltb_spec 0 (PollInterval (cfg g))); [lia|].
  rewrite run_shutdown_gov, run_shutdown_effects.
  rewrite !List.filter_app, !filter_ticker_closes, Hf.
  repeat split; assumption.
Qed.

Lemma run_without_ticker_witness :
  run (newGovernor "gov" MinBlockingProcConfig) t_2017
      [Tick t_tick1 1 (fun _ => 0); LExit (launch_ok launcher_0 100%nat 1000%nat)]
  = run (newGovernor "gov" MinBlockingProcConfig) t_2017
      [LExit (launch_ok launcher_0 100%nat 1000%nat)].
Proof.
  apply (run_without_ticker (newGovernor "gov" MinBlockingProcConfig) t_2017
           [Tick t_tick1 1 (fun _ => 0);
            LExit (launch_ok launcher_0 100%nat 1000%nat)]).
  by_eval.
Defined.

(** * A launch that succeeds *)

(** X8.  A launcher started by [launchStreamer] whose [start] succeeds
    is, on its exit event, taken out of [launchers] again and its
    streamer registered under its control channel; nothing is logged
    and no launcher is started.  With a new streamer address the pool
    keeps the size it had after the launch. *)
Theorem launch_then_exit_registers
    (w : world) (l : launcher) (a : ptr) (c : chan) :
  launched (launchStreamer w) = launched w ++ [l] ->
  let w1 := launchStreamer w in
  let w2 := fst (loop_body w1 (LExit (launch_ok l a c))) in
  launchers (gov w2) = launchers (gov w)
  /\ streamers (gov w2) = <[a := c]> (streamers (gov w))
  /\ effects w2 = effects w1
  /\ (streamers (gov w) !! a = None -> prov (gov w2) = prov (gov w1)).
Proof.
  intros Hl. cbn zeta.
  destruct (launchStreamer_launched w) as (l0 & H1 & _ & Ha & _ & He & Hw).
  rewrite H1 in Hl. apply app_inj_tail in Hl as [_ <-].
  assert (Hrec : launch_ok l0 a c
    = {| l_addr := l_addr l0; l_id := l_id l0; l_ctl := l_ctl l0;
         l_err := None;
         l_worker := Some {| s_addr := a; s_id := l_id l0; warmStart := true;
                             s_ctl := c; inClosed := false;
                             didQuit := false |} |}) by reflexivity.
  rewrite Hrec. unfold loop_body. cbn [l_worker l_addr s_addr s_ctl].
  rewrite loop_tail. cbn [fst gov set_gov set_streamers set_launchers
    streamers launchers effects].
  rewrite Ha, launchStreamer_launchers.
  rewrite delete_insert_id by apply launchStreamer_fresh.
  destruct (launchStreamer_frame w) as (Hs & _). rewrite Hs.
  repeat split. intros Hnone. unfold prov.
  cbn [gov set_gov set_streamers set_launchers streamers launchers].
  rewrite launchStreamer_len, Hs.
  unfold len. rewrite map_size_insert_None by exact Hnone. lia.
Qed.

Lemma launch_then_exit_registers_witness :
  streamers (gov (fst (loop_body (launchStreamer world_draining)
                         (LExit (launch_ok
                                   {| l_addr := 0%nat; l_id := "gov-Streamer-0";
                                      l_ctl := 5%nat; l_err := None;
                                      l_worker := None |}
                                   9%nat 90%nat)))))
  = <[9%nat := 90%nat]> (streamers (gov world_draining)).
Proof.
  apply (launch_then_exit_registers world_draining
           {| l_addr := 0%nat; l_id := "gov-Streamer-0"; l_ctl := 5%nat;
              l_err := None; l_worker := None |} 9%nat 90%nat).
  reflexivity.
Defined.

(** * Launches during the drain *)

Lemma iter_launchStreamer_extends n w :
  exists k, effects (Nat.iter n launchStreamer w) = effects w ++ k.
Proof.
  induction n as [|n [k Hk]]; [exists []; symmetry; apply app_nil_r|].
  rewrite Nat.iter_succ. unfold launchStreamer at 1. cbn [effects].
  rewrite Hk, <- app_assoc. eexists. reflexivity.
Qed.

Lemma tryScaleUp_extends w now :
  exists k, effects (tryScaleUp w now) = effects w ++ k.
Proof.
  unfold tryScaleUp. destruct (_ <=? 0); [eexists; reflexivity|].
  destruct (iter_launchStreamer_extends
              (Z.to_nat (allowedScaleDelta (gov w) now forScaleUp))
              (emit (logTrace 0 (id (gov w)) "tryScaleUp delta = %d"
                       (allowedScaleDelta (gov w) now forScaleUp)) w))
    as [k Hk].
  rewrite Hk. cbn [emit effects]. rewrite <- app_assoc. eexists. reflexivity.
Qed.

(** The effect log only grows. *)
Lemma loop_body_extends w ev :
  exists k, effects (fst (loop_body w ev)) = effects w ++ k.
Proof.
  assert (Hnil : exists k, effects w = effects w ++ k)
    by (exists []; symmetry; apply app_nil_r).
  destruct ev as [l|s|now ics oc|].
  - unfold loop_body.
    destruct (l_worker l); [|destruct (l_err l)]; rewrite loop_tail;
      cbn [fst set_gov emit effects]; try exact Hnil. eexists. reflexivity.
  - unfold loop_body. fold (after_streamer_removed w s).
    assert (Ha : exists k, effects (after_streamer_removed w s) = effects w ++ k).
    { unfold after_streamer_removed.
      destruct (inClosed s && negb (isClosing (gov w)));
        cbn [set_gov emit effects]; [eexists; reflexivity|exact Hnil]. }
    destruct Ha as [k Hk].
    destruct (didQuit s); rewrite loop_tail; cbn [fst].
    + unfold launchStreamer. cbn [effects]. rewrite Hk, <- app_assoc.
      eexists. reflexivity.
    + exists k. exact Hk.
  - unfold loop_body.
    destruct (isClosing (gov w)); [rewrite loop_tail; exact Hnil|].
    destruct (updateCountersAndEvalScaling (gov w) ics oc) as [s g'].
    destruct (0 <? s); [|destruct (s <? 0)]; rewrite loop_tail; cbn [fst];
      try exact Hnil.
    apply (tryScaleUp_extends (set_gov g' w)).
  - rewrite loop_body_stop. eexists. reflexivity.
Qed.

Lemma loop_extends evs : forall w,
  exists k, effects (fst (loop w evs)) = effects w ++ k.
Proof.
  induction evs as [|ev evs IH]; intros w.
  - exists []. symmetry. apply app_nil_r.
  - cbn [loop]. destruct (ready (gov w) ev); [|apply IH].
    destruct (loop_body_extends w ev) as [k1 Hk1].
    destruct (loop_body w ev) as [w' d]. cbn [fst] in Hk1.
    destruct d; cbn [fst]; [exists k1; exact Hk1|].
    destruct (IH w') as [k2 Hk2]. exists (k1 ++ k2).
    rewrite Hk2, Hk1, app_assoc. reflexivity.
Qed.

Lemma loop_body_launched_closing w ev :
  isClosing (gov w) = true ->
  length (launched (fst (loop_body w ev)))
  = (length (launched w) + (if is_quit ev then 1 else 0))%nat.
Proof.
  intros Hc. destruct ev as [l|s|now ics oc|]; cbn [is_quit].
  - unfold loop_body.
    destruct (l_worker l); [|destruct (l_err l)]; rewrite loop_tail;
      cbn [fst]; rewrite ?Nat.add_0_r; try reflexivity.
    f_equal. etransitivity; [apply emit_launched_other; discriminate|reflexivity].
  - unfold loop_body. fold (after_streamer_removed w s).
    destruct (after_streamer_removed_launchers w s) as (_ & _ & Hl).
    destruct (didQuit s); rewrite loop_tail; cbn [fst].
    + destruct (launchStreamer_launched (after_streamer_removed w s))
        as (l & H1 & _).
      rewrite H1, length_app, Hl. reflexivity.
    + rewrite Hl. lia.
  - unfold loop_body. rewrite Hc, loop_tail. cbn [fst]. lia.
  - rewrite loop_body_stop. cbn [fst].
    rewrite emit_launched_other by discriminate. lia.
Qed.

Lemma loop_launched_closing evs : forall w,
  isClosing (gov w) = true ->
  (length (launched (fst (loop w evs)))
   <= length (launched w) + length (List.filter is_quit evs))%nat.
Proof.
  induction evs as [|ev evs IH]; intros w Hc; [cbn; lia|].
  cbn [loop List.filter].
  assert (Hq : (length (List.filter is_quit evs)
                <= length (if is_quit ev then ev :: List.filter is_quit evs
                           else List.filter is_quit evs))%nat)
    by (destruct (is_quit ev); cbn; lia).
  destruct (ready (gov w) ev); [|specialize (IH w Hc); lia].
  pose proof (loop_body_launched_closing w ev Hc) as Hb.
  pose proof (loop_body_isClosing w ev Hc) as Hc'.
  destruct (loop_body w ev) as [w' d]. cbn [fst] in *.
  specialize (IH w' Hc').
  destruct (is_quit ev); cbn [length] in *; destruct d; cbn [fst]; lia.
Qed.

(** X9.  Once the governor is closing, the only launchers it starts are
    replacements for streamers that quit: a run of the loop starts at
    most as many launchers as it receives exits with [didQuit], and
    none at all if it receives no such exit. *)
Theorem closing_launches_only_replacements (w : world) (evs : list event) :
  isClosing (gov w) = true ->
  (length (launched (fst (loop w evs)))
   <= length (launched w) + length (List.filter is_quit evs))%nat
  /\ (List.filter is_quit evs = [] ->
      launched (fst (loop w evs)) = launched w).
Proof.
  intros Hc. pose proof (loop_launched_closing evs w Hc) as Hb.
  split; [exact Hb|]. intros Hq. rewrite Hq in Hb. cbn [length] in Hb.
  destruct (loop_extends evs w) as [k Hk]. unfold launched in *.
  rewrite Hk, omap_app in *. rewrite length_app in Hb.
  destruct (omap _ k); [apply app_nil_r|cbn in Hb; lia].
Qed.

Lemma closing_launches_only_replacements_witness :
  launched (fst (loop world_draining
                   [Tick t_tick1 1 (fun _ => 0);
                    WExit (with_didQuit false streamer_7_quit)]))
  = launched world_draining.
Proof.
  apply (closing_launches_only_replacements world_draining
           [Tick t_tick1 1 (fun _ => 0);
            WExit (with_didQuit false streamer_7_quit)]);
    reflexivity.
Defined.

(** * Sampling: the outbound sum and the sustain window *)

Lemma foldr_samples_mod (oc : ptr -> Z) (l : list (ptr * chan)) :
  foldr (fun kc s => to_uint32 (s + oc (fst kc))) 0 l
  = to_uint32 (foldr (fun kc s => s + oc (fst kc)) 0 l).
Proof.
  induction l as [|x l IH]; [reflexivity|]. cbn [foldr]. rewrite IH.
  unfold to_uint32. apply Zplus_mod_idemp_l.
Qed.

Lemma outbound_fold oc (m : gmap ptr chan) :
  map_fold (fun w (_ : chan) s => to_uint32 (s + oc w)) 0 m
  = to_uint32 (sum_samples oc m).
Proof.
  rewrite map_fold_foldr. unfold sum_samples.
  rewrite <- foldr_samples_mod. apply foldr_ext; [|reflexivity|reflexivity].
  intros [k c] s. reflexivity.
Qed.

Lemma updateCountersAndEvalScaling_snd g ics oc :
  snd (updateCountersAndEvalScaling g ics oc)
  = set_outCtr (acc (outCtr g) (to_uint32 (sum_samples oc (streamers g))))
               (set_inCtr (acc (inCtr g) ics) g).
Proof.
  unfold updateCountersAndEvalScaling. cbn zeta. rewrite outbound_fold.
  repeat match goal with |- context [if ?b then _ else _] => destruct b end;
    reflexivity.
Qed.

(** X10.  A poll feeds the inbound counter with the client's fold and
    the outbound counter with the sum of the folds of all registered
    streamers, cut to 32 bits; nothing else of the governor changes.
    With no streamer registered the outbound sample is 0. *)
Theorem updateCountersAndEvalScaling_samples
    (g : governor) (ics : Z) (oc : ptr -> Z) :
  snd (updateCountersAndEvalScaling g ics oc)
  = set_outCtr (acc (outCtr g) (sum_samples oc (streamers g) mod 2 ^ 32))
               (set_inCtr (acc (inCtr g) ics) g)
  /\ sum_samples oc ∅ = 0.
Proof.
  split.
  - unfold updateCountersAndEvalScaling. cbn zeta.
    rewrite map_fold_foldr.
    assert (Hf : foldr (fun '(w, _) s => to_uint32 (s + oc w)) 0
                       (map_to_list (streamers g))
                 = sum_samples oc (streamers g) mod 2 ^ 32).
    { unfold sum_samples.
      induction (map_to_list (streamers g)) as [|[k c] l IH]; [reflexivity|].
      cbn [foldr fst]. rewrite IH. unfold to_uint32. apply Zplus_mod_idemp_l. }
    unfold uncurry. cbn beta. rewrite Hf.
    repeat match goal with |- context [if ?b then _ else _] => destruct b end;
      reflexivity.
  - unfold sum_samples. rewrite map_to_list_empty. reflexivity.
Qed.

Lemma sum_samples_zero oc (m : gmap ptr chan) :
  (forall a, oc a = 0) -> sum_samples oc m = 0.
Proof.
  intros H. unfold sum_samples.
  induction (map_to_list m) as [|x l IH]; [reflexivity|].
  cbn [foldr]. rewrite IH, H. reflexivity.
Qed.

Lemma feed_snoc g ss s :
  feed g (ss ++ [s])
  = snd (updateCountersAndEvalScaling (feed g ss) (fst s) (snd s)).
Proof. unfold feed. rewrite foldl_app. reflexivity. Qed.

Lemma feed_settings ss : forall g, same_settings g (feed g ss).
Proof.
  induction ss as [|s ss IH]; intros g; [apply same_settings_refl|].
  unfold feed. cbn [foldl]. eapply same_settings_trans; [|apply IH].
  apply updateCountersAndEvalScaling_settings.
Qed.

(** Counters after [n] polls under pressure, starting from zero. *)
Lemma feed_pressure ss : forall g,
  inCtr g = zero_counter -> outCtr g = zero_counter ->
  Forall pressure ss ->
  Z.of_nat (length ss) < 2 ^ 32 ->
  inCtr (feed g ss) = {| waits := Z.of_nat (length ss); noWaits := 0 |}
  /\ outCtr (feed g ss) = {| waits := 0; noWaits := Z.of_nat (length ss) |}.
Proof.
  induction ss as [|s ss IH] using rev_ind; intros g Hi Ho Hall Hlen.
  - cbn. rewrite Hi, Ho. split; reflexivity.
  - apply Forall_app in Hall as [Hall Hs].
    apply Forall_cons in Hs as [[Hs1 Hs2] _].
    rewrite length_app in *. cbn [length] in *.
    destruct (IH g Hi Ho Hall ltac:(lia)) as [IHi IHo].
    rewrite feed_snoc.
    rewrite (updateCountersAndEvalScaling_snd (feed g ss) (fst s) (snd s)).
    cbn [inCtr outCtr set_inCtr set_outCtr].
    rewrite IHi, IHo, (sum_samples_zero _ _ Hs2).
    change (to_uint32 0) with 0.
    rewrite acc_waits by exact Hs1. rewrite acc_noWaits by lia.
    cbn [waits noWaits].
    rewrite !to_uint32_id by (unfold is_uint32; lia).
    split; f_equal; lia.
Qed.

(** X11.  The sustain window.  Starting from zeroed counters, the
    [n]-th consecutive poll that sees inbound waits and no outbound
    waits asks for a scale-up exactly when [n >= minSust]; the polls
    before ask for nothing. *)
Theorem sustain_window
    (g : governor) (ss : list (Z * (ptr -> Z))) (s : Z * (ptr -> Z)) :
  inCtr g = zero_counter -> outCtr g = zero_counter ->
  Forall pressure (ss ++ [s]) ->
  Z.of_nat (length (ss ++ [s])) < 2 ^ 32 ->
  let n := Z.of_nat (length (ss ++ [s])) in
  let r := fst (updateCountersAndEvalScaling (feed g ss) (fst s) (snd s)) in
  (r = 1 <-> minSust g <= n) /\ (r = 0 <-> n < minSust g).
Proof.
  intros Hi Ho Hall Hlen. cbn zeta.
  destruct (feed_pressure (ss ++ [s]) g Hi Ho Hall Hlen) as [Hin Hout].
  rewrite feed_snoc in Hin, Hout.
  destruct (feed_settings ss g) as (_ & _ & Hm & _).
  pose proof (updateCountersAndEvalScaling_settings (feed g ss) (fst s) (snd s))
    as (_ & _ & Hm' & _).
  revert Hin Hout Hm'. unfold updateCountersAndEvalScaling. cbn zeta.
  set (g1 := set_outCtr _ _).
  destruct (Z.leb_spec (minSust g1) (waits (inCtr g1)));
    destruct (Z.leb_spec (minSust g1) (noWaits (outCtr g1)));
    destruct (Z.leb_spec (minSust g1) (noWaits (inCtr g1)));
    cbn [andb fst snd]; intros Hin Hout Hm';
    rewrite Hin in *; rewrite Hout in *; cbn [waits noWaits] in *;
    split; split; intros; try lia.
Qed.

Lemma sustain_window_witness :
  fst (updateCountersAndEvalScaling
         (feed gov_sustain_5 (replicate 3 (1, fun _ => 0))) 1 (fun _ => 0)) = 0
  /\ fst (updateCountersAndEvalScaling
            (feed gov_sustain_5 (replicate 4 (1, fun _ => 0))) 1 (fun _ => 0)) = 1.
Proof.
  assert (Hp : pressure (1, fun _ : ptr => 0)) by (split; [reflexivity|reflexivity]).
  split.
  - apply (proj2 (sustain_window gov_sustain_5 (replicate 3 (1, fun _ => 0))
                    (1, fun _ => 0) eq_refl eq_refl
                    ltac:(repeat constructor; exact Hp) ltac:(by_eval))).
    by_eval.
  - apply (proj1 (sustain_window gov_sustain_5 (replicate 4 (1, fun _ => 0))
                    (1, fun _ => 0) eq_refl eq_refl
                    ltac:(repeat constructor; exact Hp) ltac:(by_eval))).
    by_eval.
Defined.

(** * The retry path: what is forwarded *)

Lemma bufferedForwarder_drain reqs tail :
  bufferedForwarder (map (fun r => BfRecv r true) reqs ++ tail)
  = reqs ++ bufferedForwarder tail.
Proof.
  induction reqs as [|r reqs IH]; [reflexivity|]. cbn. rewrite IH. reflexivity.
Qed.











Lemma rf_loop_before_stop evs : forall st,
  fst (rf_loop st evs) = fst (rf_loop st (map RecvRetry (before_stop evs))).
Proof.
  induction evs as [|[req|] evs IH]; intros st; [reflexivity| |reflexivity].
  cbn [before_stop map rf_loop].
  destruct (rf_loop_body st (RecvRetry req)) as [st' d].
  destruct d; [reflexivity|apply IH].
Qed.

Lemma omap_snoc_log {B} (f : rf_effect -> option B) effs who msg :
  f (rf_logInfo who msg) = None ->
  omap f (effs ++ [rf_logInfo who msg]) = omap f effs.
Proof. intros H. rewrite omap_app. cbn. rewrite H. apply app_nil_r. Qed.

(** The forwarders started and what is sent to them depend only on
    the requests received before the stop. *)
Lemma runRetryForwarder_before_stop g evs :
  let effs := snd (fst (runRetryForwarder g evs)) in
  let effs' :=
    snd (fst (runRetryForwarder g (map RecvRetry (before_stop evs)))) in
  spawned effs = spawned effs'
  /\ forall c, sent_on c effs = sent_on c effs'.
Proof.
  cbn zeta. unfold runRetryForwarder.
  destruct (MaxRetries (cfg g) =? 0); [split; reflexivity|].
  match goal with |- context [rf_loop ?s evs] =>
    pose proof (rf_loop_before_stop evs s) as Heq;
    destruct (rf_loop s evs) as [st1 d1];
    destruct (rf_loop s (map RecvRetry (before_stop evs))) as [st2 d2]
  end.
  cbn [fst] in Heq. subst st2.
  destruct d1, d2; cbn [fst snd]; unfold spawned, sent_on;
    (split; [|intros c]); rewrite ?omap_snoc_log by reflexivity; reflexivity.
Qed.

(** X14.  End to end.  With retries enabled, if each buffered forwarder
    is handed what was sent on its sub-buffer and every send to the
    client goes through before [ctl] closes, the client's retry channel
    receives exactly the requests the forwarder received before the
    stop, each once and in the order received. *)
Theorem retry_path_end_to_end (g : governor) (evs : list rf_event) :
  MaxRetries (cfg g) <> 0 ->
  client_retry g evs
    (fun c => map (fun r => BfRecv r true)
                  (sent_on c (snd (fst (runRetryForwarder g evs))))
              ++ [BfStop])
  = before_stop evs.
Proof.
  intros Hm. unfold client_retry.
  destruct (runRetryForwarder_before_stop g evs) as [Hsp Hse].
  cbn zeta in Hsp, Hse.
  destruct (runRetryForwarder g evs) as [[r effs] d] eqn:Hrun.
  cbn [fst snd] in *. rewrite Hsp.
  destruct (before_stop evs) as [|r0 reqs] eqn:Hbs.
  - unfold runRetryForwarder. destruct (MaxRetries (cfg g) =? 0); reflexivity.
  - destruct (runRetryForwarder_single_buffer g r0 reqs Hm) as (_ & H2 & _ & H4).
    cbn zeta in H2, H4. rewrite H2. cbn [flat_map].
    rewrite Hse, H4, app_nil_r, bufferedForwarder_drain.
    cbn [bufferedForwarder]. apply app_nil_r.
Qed.

Lemma retry_path_end_to_end_witness :
  client_retry gov_scaling
    [RecvRetry 4%nat; RecvRetry 2%nat; RfStop; RecvRetry 9%nat]
    (fun c => map (fun r => BfRecv r true)
                  (sent_on c (snd (fst (runRetryForwarder gov_scaling
                     [RecvRetry 4%nat; RecvRetry 2%nat; RfStop; RecvRetry 9%nat]))))
              ++ [BfStop])
  = [4%nat; 2%nat].
Proof.
  apply (retry_path_end_to_end gov_scaling
           [RecvRetry 4%nat; RecvRetry 2%nat; RfStop; RecvRetry 9%nat]).
  discriminate.
Defined.

(** * Names of the launched streamers *)






(** * The target of the gate *)

(** X16.  Whenever the gate allows a change, the pool size it aims at
    lies within the configured bounds: a scale-up never aims above
    [MaxConns] and a wind-down never below [MinConns], whatever the
    scale policy returns. *)
Theorem allowedScaleDelta_target_in_bounds
    (g : governor) (now : Time) (up : bool) :
  is_uint32 (MinConns (cfg g)) ->
  is_uint32 (MaxConns (cfg g)) ->
  MinConns (cfg g) <= MaxConns (cfg g) ->
  prov g < 2 ^ 32 ->
  allowedScaleDelta g now up = 0
  \/ MinConns (cfg g) <= prov g + allowedScaleDelta g now up <= MaxConns (cfg g).
Proof.
  intros Hmin Hmax Hle Hfit.
  unfold allowedScaleDelta. rewrite prov_conversion by assumption.
  destruct (isClosing g); [left; reflexivity|].
  destruct (Time_After _ _); [left; reflexivity|].
  destruct (negb (nonBlocking g) && _); [left; reflexivity|].
  pose proof (prov_uint32 g Hfit) as Hp.
  destruct up.
  - destruct (MaxConns (cfg g) <=? prov g); [left; reflexivity|].
    right. rewrite delta_conversion by assumption.
    pose proof (clamp_range _ _ (Apply (scale (cfg g)) (prov g)) Hle). lia.
  - destruct (prov g <=? MinConns (cfg g)); [left; reflexivity|].
    right. rewrite delta_conversion by assumption.
    pose proof (clamp_range _ _ (ApplyInverse (scale (cfg g)) (prov g)) Hle).
    lia.
Qed.

Lemma allowedScaleDelta_target_in_bounds_witness :
  allowedScaleDelta gov_two_streamers t_2017 forWindDown = 0
  \/ 1 <= prov gov_two_streamers
          + allowedScaleDelta gov_two_streamers t_2017 forWindDown <= 8.
Proof.
  apply (allowedScaleDelta_target_in_bounds gov_two_streamers t_2017 forWindDown);
    by_eval.
Defined.

(** * A tick never shrinks the pool *)

Lemma iter_launchStreamer_subseteq n w :
  launchers (gov w) ⊆ launchers (gov (Nat.iter n launchStreamer w)).
Proof.
  induction n as [|n IH]; [reflexivity|]. rewrite Nat.iter_succ.
  etransitivity; [exact IH|]. rewrite launchStreamer_launchers.
  apply insert_subseteq, launchStreamer_fresh.
Qed.

(** X17.  A tick removes no streamer and no launcher and closes no
    channel, also when the evaluation asks for a wind-down:
    [tryWindDown] does nothing.  Members leave the maps only through
    their exit events. *)
Theorem tick_never_shrinks (w : world) (now : Time) (ics : Z) (oc : ptr -> Z) :
  streamers (gov (fst (loop_body w (Tick now ics oc)))) = streamers (gov w)
  /\ launchers (gov w) ⊆ launchers (gov (fst (loop_body w (Tick now ics oc))))
  /\ List.filter is_close (effects (fst (loop_body w (Tick now ics oc))))
     = List.filter is_close (effects w)
  /\ (fst (updateCountersAndEvalScaling (gov w) ics oc) <= 0 ->
      launchers (gov (fst (loop_body w (Tick now ics oc)))) = launchers (gov w)
      /\ effects (fst (loop_body w (Tick now ics oc))) = effects w).
Proof.
  split; [|split; [|split]].
  - unfold loop_body.
    destruct (isClosing (gov w)); [rewrite loop_tail; reflexivity|].
    destruct (updateCountersAndEvalScaling_state (gov w) ics oc)
      as (_ & _ & _ & _ & Hst & _).
    destruct (updateCountersAndEvalScaling (gov w) ics oc) as [s g'].
    cbn [snd] in Hst.
    destruct (0 <? s); [|destruct (s <? 0)]; rewrite loop_tail; cbn [fst];
      try exact Hst.
    destruct (tryScaleUp_count (set_gov g' w) now) as (_ & _ & H & _).
    rewrite H. exact Hst.
  - unfold loop_body.
    destruct (isClosing (gov w)); [rewrite loop_tail; reflexivity|].
    destruct (updateCountersAndEvalScaling_state (gov w) ics oc)
      as (_ & _ & _ & _ & _ & Hla & _).
    destruct (updateCountersAndEvalScaling (gov w) ics oc) as [s g'].
    cbn [snd] in Hla.
    destruct (0 <? s); [|destruct (s <? 0)]; rewrite loop_tail; cbn [fst];
      try (cbn [tryWindDown gov set_gov]; rewrite Hla; reflexivity).
    rewrite <- Hla. unfold tryScaleUp. destruct (_ <=? 0); [reflexivity|].
    apply (iter_launchStreamer_subseteq _ (emit _ (set_gov g' w))).
  - apply filter_loop_body; reflexivity.
  - unfold loop_body.
    destruct (isClosing (gov w)); [rewrite loop_tail; split; reflexivity|].
    destruct (updateCountersAndEvalScaling_state (gov w) ics oc)
      as (_ & _ & _ & _ & _ & Hla & _).
    destruct (updateCountersAndEvalScaling (gov w) ics oc) as [s g'].
    cbn [fst snd] in *. intros Hs.
    destruct (Z.ltb_spec 0 s); [lia|].
    destruct (s <? 0); rewrite loop_tail; cbn [fst]; split;
      try reflexivity; exact Hla.
Qed.

Lemma tick_never_shrinks_witness :
  launchers (gov (fst (loop_body (set_gov gov_two_streamers world_draining)
                         (Tick t_2017 0 (fun _ => 0)))))
  = launchers gov_two_streamers.
Proof.
  apply (tick_never_shrinks (set_gov gov_two_streamers world_draining)
           t_2017 0 (fun _ => 0)).
  by_eval.
Defined.

(** * The graceful drain completes *)

Lemma loop_body_exit_closing w s :
  isClosing (gov w) = true -> didQuit s = false ->
  loop_body w (WExit s)
  = (set_gov (set_streamers (delete (s_addr s) (streamers (gov w))) (gov w)) w,
     drained (set_streamers (delete (s_addr s) (streamers (gov w))) (gov w))).
Proof.
  intros Hc Hq. unfold loop_body. rewrite Hc, Hq, andb_false_r, loop_tail.
  cbn [gov set_gov isClosing set_streamers]. rewrite Hc. reflexivity.
Qed.

(** X18.  Once the governor is closing and has no launcher in flight,
    the loop ends as soon as the exits of all registered streamers
    have arrived (none of them quitting): it ends within any sequence
    of such exits that covers the registered streamers, and [run] then
    shuts down. *)
Theorem graceful_drain_completes
    (w : world) (ss : list streamer) (evs : list event) :
  isClosing (gov w) = true ->
  launchers (gov w) = ∅ ->
  ss <> [] ->
  Forall (fun s => didQuit s = false) ss ->
  dom (streamers (gov w)) ⊆ list_to_set (map s_addr ss) ->
  snd (loop w (map WExit ss ++ evs)) = true
  /\ launched (fst (loop w (map WExit ss ++ evs))) = launched w.
Proof.
  revert w. induction ss as [|s ss IH]; intros w Hc Hl Hne Hq Hdom;
    [contradiction|].
  apply Forall_cons in Hq as [Hq1 Hq].
  cbn [map app loop ready].
  rewrite (loop_body_exit_closing w s Hc Hq1).
  set (g' := set_streamers (delete (s_addr s) (streamers (gov w))) (gov w)).
  destruct (drained g') eqn:Hd; [split; reflexivity|].
  assert (Hdom' : dom (streamers g') ⊆ list_to_set (map s_addr ss)).
  { unfold g'. cbn [streamers set_streamers]. rewrite dom_delete_L.
    cbn [map list_to_set] in Hdom. intros a Ha.
    apply elem_of_difference in Ha as [Ha1 Ha2].
    apply Hdom, elem_of_union in Ha1 as [Ha1|Ha1]; [contradiction|exact Ha1]. }
  assert (Hne' : ss <> []).
  { intros ->. cbn in Hdom'.
    assert (He : streamers g' = ∅).
    { apply dom_empty_iff_L. apply elem_of_equiv_empty_L. intros a Ha.
      apply Hdom' in Ha. apply elem_of_empty in Ha. exact Ha. }
    assert (Hd' : drained g' = true)
      by (apply drained_iff; split; [exact He|exact Hl]).
    congruence. }
  apply (IH (set_gov g' w)); try assumption.
Qed.

Lemma graceful_drain_completes_witness :
  snd (loop world_draining
         (map WExit [with_didQuit false streamer_7_quit] ++ [])) = true.
Proof.
  apply (graceful_drain_completes world_draining
           [with_didQuit false streamer_7_quit] [] eq_refl eq_refl
           ltac:(discriminate) ltac:(repeat constructor)).
  intros a Ha. apply elem_of_dom in Ha as [c Hc].
  destruct (decide (a = 7%nat)) as [->|Hne].
  - apply elem_of_list_to_set. left.
  - exfalso. cbn in Hc. rewrite lookup_insert_ne in Hc by congruence.
    rewrite lookup_empty in Hc. discriminate.
Defined.
